(** * pyTailgating: the vehicle-following controller of [pyTailgating.py]

    A shallow embedding of the control core of [pyTailgating.py] (the PID
    class, the kinematic step of [Car], the reaction buffer and one
    iteration of the loop of [main]) together with the properties stated
    for it.

    Numbers.  Python floats are idealised as exact rationals in canonical
    form ([Qc]), so that Python's [==] is Leibniz equality; rounding is not
    modelled.  [float("inf")] is an explicit constructor.  Python's [/]
    raises [ZeroDivisionError] on a zero divisor and [deque[0]] raises
    [IndexError] on an empty deque: both are modelled in an error monad.
    Rendering ([draw], the road lines, the HUD) has no effect on the
    variables modelled here and is left out. *)

From Stdlib Require Import ZArith QArith Qcanon Qcabs Qround List String Bool Lia
  Lqa.
Import ListNotations.

Local Open Scope Qc_scope.

(** ** Python exceptions as an error monad *)

Inductive exn : Type :=
| ZeroDivisionError
| IndexError
| KeyError.

Inductive M (A : Type) : Type :=
| Ok (a : A)
| Raise (e : exn).

Arguments Ok {A} a.
Arguments Raise {A} e.

Definition ret {A : Type} (a : A) : M A := Ok a.

Definition bind {A B : Type} (m : M A) (k : A -> M B) : M B :=
  match m with
  | Ok a => k a
  | Raise e => Raise e
  end.

Notation "x <- m ;; k" := (bind m (fun x => k))
  (at level 61, m at next level, right associativity).
Notation "' p <- m ;; k" := (bind m (fun x => match x with p => k end))
  (at level 61, p pattern, m at next level, right associativity).

(** ** Python numbers *)

(** A float literal. *)
Definition fl (q : Q) : Qc := Q2Qc q.

(** An int used in float arithmetic. *)
Definition of_int (z : Z) : Qc := Q2Qc (inject_Z z).

(** [a < b] *)
Definition ltb (a b : Qc) : bool :=
  match a ?= b with
  | Lt => true
  | _ => false
  end.

(** [max(a, b)]: the first argument unless the second is larger. *)
Definition pymax (a b : Qc) : Qc := if ltb a b then b else a.

(** [min(a, b)]: the first argument unless the second is smaller. *)
Definition pymin (a b : Qc) : Qc := if ltb b a then b else a.

(** [a / b] *)
Definition truediv (a b : Qc) : M Qc :=
  if Qc_eq_bool b 0 then Raise ZeroDivisionError else ret (a / b).

(** [int(q)]: truncation towards zero. *)
Definition int (q : Qc) : Z := Z.quot (Qnum q) (Zpos (Qden q)).

(** A float that may be [float("inf")]. *)
Inductive xfloat : Type :=
| Finite (t : Qc)
| Inf.

(** ** Configuration *)

Definition WIDTH : Z := 1000.
Definition HEIGHT : Z := 400.
Definition FPS : Z := 60.

Definition PROFILES : list (string * Qc) :=
  [ ("im too young to die"%string, fl 0.0);
    ("new driver"%string, fl 0.1);
    ("kids onboard"%string, fl 0.15);
    ("elderly"%string, fl 0.2);
    ("cheap junk"%string, fl 0.3);
    ("still civilized"%string, fl 0.4);
    ("in a hurry"%string, fl 0.5);
    ("well ok..."%string, fl 0.6);
    ("nurburgring"%string, fl 0.7);
    ("alligator tailgator"%string, fl 0.8);
    ("Bayerische Motoren Werke"%string, fl 0.9);
    ("rushing crap to the tannery"%string, fl 1.0) ].

(** [d[key]] on a dict literal. *)
Fixpoint getitem (d : list (string * Qc)) (key : string) : M Qc :=
  match d with
  | [] => Raise KeyError
  | (k, v) :: rest => if String.eqb k key then ret v else getitem rest key
  end.

Definition MAX_SPEED : Qc := of_int 350.
Definition MAX_ACCEL : Qc := of_int 100.
Definition MAX_BRAKE : Qc := of_int (-300).
Definition MAX_JERK : Qc := of_int 1000.
Definition DEADBAND : Qc := of_int 6.
Definition REACTION_TIME : Qc := fl 0.5.
Definition STANDSTILL_DISTANCE : Qc := of_int 25.
Definition TTC_GAIN : Qc := of_int 600.

(** ** PIDController *)

Record PIDController : Type := mkPID {
  kp : Qc;
  ki : Qc;
  kd : Qc;
  integral : Qc;
  prev_error : Qc
}.

Module PID.

(** [__init__] *)
Definition init (kp ki kd : Qc) : PIDController :=
  mkPID kp ki kd 0 0.

(** [update]: the new state of the object and the returned value. *)
Definition update (self : PIDController) (error dt : Qc)
  : M (PIDController * Qc) :=
  let integral' := integral self + error * dt in
  derivative <- (if ltb 0 dt then truediv (error - prev_error self) dt
                 else ret 0) ;;
  let self' := mkPID (kp self) (ki self) (kd self) integral' error in
  ret (self', kp self * error + ki self * integral' + kd self * derivative).

(** [reset] *)
Definition reset (self : PIDController) : PIDController :=
  mkPID (kp self) (ki self) (kd self) 0 0.

End PID.

(** ** Car (the fields [y] and [color] are read by [draw] only) *)

Record Car : Type := mkCar {
  x : Qc;
  speed : Qc
}.

Module CarM.

(** [__init__] *)
Definition init (x0 : Qc) : Car := mkCar x0 0.

(** [update] *)
Definition update (self : Car) (accel dt : Qc) : Car :=
  let speed1 := speed self + accel * dt in
  let speed2 := pymax 0 (pymin speed1 MAX_SPEED) in
  mkCar (x self + speed2 * dt) speed2.

End CarM.

(** ** The reaction buffer: a deque of perception samples *)

Record Sample : Type := mkSample {
  distance : Qc;
  rel_speed : Qc
}.

Module Deque.

Definition t : Type := list Sample.

Definition empty : t := [].

(** [append] *)
Definition append (d : t) (s : Sample) : t := d ++ [s].

(** [popleft] *)
Definition popleft (d : t) : M (t * Sample) :=
  match d with
  | [] => Raise IndexError
  | s :: rest => ret (rest, s)
  end.

(** [d[0]] *)
Definition head (d : t) : M Sample :=
  match d with
  | [] => Raise IndexError
  | s :: _ => ret s
  end.

(** [len] *)
Definition len (d : t) : Z := Z.of_nat (List.length d).

End Deque.

(** [max_len = int(REACTION_TIME * FPS)] *)
Definition max_len : Z := int (REACTION_TIME * of_int FPS).

(** Lines 162-168 of [main]: push the true sample, drop the head when the
    deque is longer than [max_len], read the head. *)
Definition perceive (reaction_buffer : Deque.t) (s : Sample)
  : M (Deque.t * Sample) :=
  let buf1 := Deque.append reaction_buffer s in
  buf2 <- (if (max_len <? Deque.len buf1)%Z
           then ('(b, _) <- Deque.popleft buf1 ;; ret b)
           else ret buf1) ;;
  perceived <- Deque.head buf2 ;;
  ret (buf2, perceived).

(** Lines 174-177 of [main]. *)
Definition time_to_contact (distance rel_speed : Qc) : M xfloat :=
  if ltb 0 rel_speed
  then (t <- truediv distance rel_speed ;; ret (Finite t))
  else ret Inf.

(** Lines 211-213 of [main]. *)
Definition jerk_limit (last_accel desired_accel dt : Qc) : Qc :=
  let max_delta := MAX_JERK * dt in
  pymax (last_accel - max_delta) (pymin (last_accel + max_delta) desired_accel).

(** Method calls on the two PID objects, in the order they are made. *)
Inductive call : Type :=
| AccelReset
| BrakeReset
| AccelUpdate
| BrakeUpdate.

(** The result of the mode arbitration of one iteration: the two PID
    objects, [desired_accel], and the calls made. *)
Record Arbitration : Type := mkArb {
  arb_accel : PIDController;
  arb_brake : PIDController;
  arb_desired : Qc;
  arb_calls : list call
}.

Section Profile.

(** The aggressiveness scalar ([profile] in the source). *)
Variable profile : Qc.

Definition TARGET_DISTANCE : Qc := of_int 150 - of_int 5 * profile.
Definition TIME_HEADWAY : Qc := fl 1.8 - profile.
Definition DESIRED_TTC : Qc := fl 2.6 - profile.
Definition MIN_TTC : Qc := fl 1.5 - profile.

(** Lines 179-209 of [main]. *)
Definition arbitrate (pid_accel pid_brake : PIDController)
           (distance min_follow_distance : Qc) (ttc : xfloat)
           (distance_error dt : Qc) : M Arbitration :=
  let desired_accel := 0 in
  let '(mkArb pid_accel pid_brake desired_accel calls) :=
    if ltb (Qcabs distance_error) DEADBAND
    then mkArb (PID.reset pid_accel) (PID.reset pid_brake) 0
               [AccelReset; BrakeReset]
    else mkArb pid_accel pid_brake desired_accel [] in
  let cruise :=
    let pid_brake := PID.reset pid_brake in
    '(pid_accel, out) <- PID.update pid_accel distance_error dt ;;
    let desired_accel := pymin out MAX_ACCEL in
    ret (mkArb pid_accel pid_brake desired_accel
               (calls ++ [BrakeReset; AccelUpdate])) in
  if ltb distance min_follow_distance then
    ret (mkArb (PID.reset pid_accel) pid_brake MAX_BRAKE
               (calls ++ [AccelReset]))
  else
    match ttc with
    | Finite t =>
        if ltb t DESIRED_TTC then
          let pid_accel := PID.reset pid_accel in
          if ltb t MIN_TTC then
            ret (mkArb pid_accel pid_brake MAX_BRAKE (calls ++ [AccelReset]))
          else
            let ttc_error := DESIRED_TTC - t in
            let desired_accel := - TTC_GAIN * ttc_error in
            '(pid_brake, trim) <- PID.update pid_brake distance_error dt ;;
            let desired_accel := desired_accel + trim in
            let desired_accel := pymax desired_accel MAX_BRAKE in
            ret (mkArb pid_accel pid_brake desired_accel
                       (calls ++ [AccelReset; BrakeUpdate]))
        else cruise
    | Inf => cruise   (* [inf < DESIRED_TTC] is [False] *)
    end.

End Profile.

(** ** The loop of [main] *)

(** What one iteration reads from pygame: the milliseconds returned by
    [clock.tick(FPS)] (a natural number), whether a [QUIT] event is
    pending, and the state of the W and S keys. *)
Record Frame : Type := mkFrame {
  ms : N;
  quit : bool;
  K_w : bool;
  K_s : bool
}.

(** [dt = clock.tick(FPS) / 1000] *)
Definition frame_dt (fr : Frame) : Qc :=
  of_int (Z.of_N (ms fr)) / of_int 1000.

(** The local variables of [main] that live across iterations. *)
Record World : Type := mkWorld {
  lead_car : Car;
  follower_car : Car;
  pid_accel : PIDController;
  pid_brake : PIDController;
  reaction_buffer : Deque.t;
  road_offset : Qc;
  last_accel : Qc;
  running : bool
}.

(** The values computed by one iteration. *)
Record Tick : Type := mkTick {
  tick_dt : Qc;
  true_distance : Qc;
  true_rel_speed : Qc;
  perceived : Sample;
  min_follow_distance : Qc;
  ttc : xfloat;
  distance_error : Qc;
  proposed_accel : Qc;      (* [desired_accel] before lines 211-212 *)
  commanded_accel : Qc;     (* [desired_accel] after line 212 *)
  calls : list call;
  lead_braking : bool;
  follower_braking : bool
}.

Section Main.

Variable profile : Qc.

(** The state on entry to the loop (lines 127-138). *)
Definition init_world : World :=
  {| lead_car := CarM.init (of_int (WIDTH / 2));
     follower_car := CarM.init (of_int (WIDTH / 2) - TARGET_DISTANCE profile);
     pid_accel := PID.init (fl 0.6 + profile * fl 0.02) (fl 0.0) (fl 0.2);
     pid_brake := PID.init (fl 1.2 + profile * fl 0.02) (fl 0.0) (fl 0.6);
     reaction_buffer := Deque.empty;
     road_offset := 0;
     last_accel := 0;
     running := true |}.

(** One iteration of [while running] (lines 140-226). *)
Definition loop_body (w : World) (fr : Frame) : M (World * Tick) :=
  let dt := frame_dt fr in
  let running := if quit fr then false else running w in
  let user_accel :=
    if K_w fr then MAX_ACCEL else if K_s fr then MAX_BRAKE else 0 in
  let lead_car := CarM.update (lead_car w) user_accel dt in
  let lead_braking := ltb user_accel 0 in
  let follower_car := follower_car w in
  (* delayed perception *)
  let true_distance := x lead_car - x follower_car in
  let true_rel_speed := speed follower_car - speed lead_car in
  '(reaction_buffer, perceived) <-
    perceive (reaction_buffer w) (mkSample true_distance true_rel_speed) ;;
  let distance := distance perceived in
  let rel_speed := rel_speed perceived in
  let min_follow_distance :=
    STANDSTILL_DISTANCE + speed follower_car * TIME_HEADWAY profile in
  ttc <- time_to_contact distance rel_speed ;;
  let distance_error :=
    distance - pymax (TARGET_DISTANCE profile) min_follow_distance in
  a <- arbitrate profile (pid_accel w) (pid_brake w)
         distance min_follow_distance ttc distance_error dt ;;
  let desired_accel := jerk_limit (last_accel w) (arb_desired a) dt in
  let last_accel := desired_accel in
  let follower_car := CarM.update follower_car desired_accel dt in
  let follower_braking := ltb desired_accel (of_int (-25)) in
  (* graphics: only the scrolling of the world is state *)
  let world_shift := speed lead_car * dt in
  let road_offset := road_offset w - world_shift in
  let follower_car := mkCar (x follower_car - world_shift) (speed follower_car) in
  let lead_car := mkCar (of_int (WIDTH / 2)) (speed lead_car) in
  ret ({| lead_car := lead_car;
          follower_car := follower_car;
          pid_accel := arb_accel a;
          pid_brake := arb_brake a;
          reaction_buffer := reaction_buffer;
          road_offset := road_offset;
          last_accel := last_accel;
          running := running |},
       {| tick_dt := dt;
          true_distance := true_distance;
          true_rel_speed := true_rel_speed;
          perceived := perceived;
          min_follow_distance := min_follow_distance;
          ttc := ttc;
          distance_error := distance_error;
          proposed_accel := arb_desired a;
          commanded_accel := desired_accel;
          calls := arb_calls a;
          lead_braking := lead_braking;
          follower_braking := follower_braking |}).

(** [while running]: the iterations made on a sequence of frames, with
    the values each one computed. *)
Fixpoint main_loop (w : World) (frames : list Frame) : M (World * list Tick) :=
  match frames with
  | [] => ret (w, [])
  | fr :: rest =>
      if running w then
        '(w1, tk) <- loop_body w fr ;;
        '(w2, tks) <- main_loop w1 rest ;;
        ret (w2, tk :: tks)
      else ret (w, [])
  end.

End Main.

(** [profile = PROFILES["well ok..."]] and the loop started from it. *)
Definition main (frames : list Frame) : M (World * list Tick) :=
  profile <- getitem PROFILES "well ok..." ;;
  main_loop profile (init_world profile) frames.

(** ** Vocabulary of the statements *)

(** The number of iterations [while running] makes on [frames]: all of
    them up to and including the first one that sees a [QUIT] event. *)
Fixpoint played (running : bool) (frames : list Frame) : nat :=
  match frames with
  | [] => O
  | fr :: rest => if running then S (played (negb (quit fr)) rest) else O
  end.


(** The reaction buffer alone: the samples read back when [samples] are
    pushed one per iteration. *)
Fixpoint feed (buf : Deque.t) (samples : list Sample) : M (Deque.t * list Sample) :=
  match samples with
  | [] => ret (buf, [])
  | s :: rest =>
      '(buf1, seen) <- perceive buf s ;;
      '(buf2, seens) <- feed buf1 rest ;;
      ret (buf2, seen :: seens)
  end.

(** The state a PID object carries between calls is cleared. *)
Definition cleared (c : PIDController) : Prop :=
  integral c = 0 /\ prev_error c = 0.

(** The gains of a PID object. *)
Definition gains (c : PIDController) : Qc * Qc * Qc := (kp c, ki c, kd c).

(** The branch of the arbitration an iteration takes. *)
Inductive mode : Type :=
| TooClose
| MinTTC
| TTCTrim
| Cruise.

Definition select_mode (profile distance min_follow_distance : Qc)
           (ttc : xfloat) : mode :=
  if ltb distance min_follow_distance then TooClose
  else match ttc with
       | Finite t =>
           if ltb t (DESIRED_TTC profile)
           then (if ltb t (MIN_TTC profile) then MinTTC else TTCTrim)
           else Cruise
       | Inf => Cruise
       end.

Definition mode_of (profile : Qc) (tk : Tick) : mode :=
  select_mode profile (distance (perceived tk)) (min_follow_distance tk) (ttc tk).

(** A PID object after [update(error, dt)], and the value returned. *)
Definition updated (c : PIDController) (error dt : Qc) : PIDController :=
  mkPID (kp c) (ki c) (kd c) (integral c + error * dt) error.

Definition output (c : PIDController) (error dt : Qc) : Qc :=
  kp c * error + ki c * (integral c + error * dt)
  + kd c * (if ltb 0 dt then (error - prev_error c) / dt else 0).

(** The first block of the arbitration (lines 183-186): what it leaves of a
    PID object, and the calls it makes. *)
Definition deadband_reset (dead : bool) (c : PIDController) : PIDController :=
  if dead then PID.reset c else c.

Definition deadband_calls (dead : bool) : list call :=
  if dead then [AccelReset; BrakeReset] else [].

(** [abs(distance_error) < DEADBAND] held in the iteration. *)
Definition in_deadband (tk : Tick) : bool :=
  ltb (Qcabs (distance_error tk)) DEADBAND.

(** What the controller carries from one iteration to the next. *)
Record ControllerState : Type := mkCS {
  cs_accel : PIDController;
  cs_brake : PIDController;
  cs_last_accel : Qc;
  cs_buffer : Deque.t
}.

Definition controller_state (w : World) : ControllerState :=
  mkCS (pid_accel w) (pid_brake w) (last_accel w) (reaction_buffer w).

(** What the controller reads in an iteration. *)
Definition tick_inputs (tk : Tick) : Qc * Qc * Qc :=
  (tick_dt tk, true_distance tk, true_rel_speed tk).

(** What the controller emits in an iteration. *)
Definition tick_outputs (tk : Tick) : Qc * bool :=
  (commanded_accel tk, follower_braking tk).

(** The deque after one iteration: the sample is appended and the head is
    dropped when more than [max_len] samples are held. *)
Definition pushed (buf : Deque.t) (s : Sample) : Deque.t :=
  if (max_len <? Deque.len (buf ++ [s]))%Z then tl (buf ++ [s]) else buf ++ [s].

(** ** Concrete inputs *)

(** The value of [PROFILES["well ok..."]]. *)
Definition configured : Qc := fl 0.6.

(** Frames of [m] milliseconds with no key, W, or S held. *)
Definition idle (m : N) : Frame := mkFrame m false false false.
Definition hold_w (m : N) : Frame := mkFrame m false true false.
Definition hold_s (m : N) : Frame := mkFrame m false false true.

(** At 10 frames a second: the lead car accelerates for 17 frames, brakes
    for 47 and is released for 15. *)
Definition approach : list Frame :=
  repeat (hold_w 100) 17 ++ repeat (hold_s 100) 47 ++ repeat (idle 100) 15.

(** Both cars at speed 200, the follower 257 behind the lead car, on
    entry to the loop otherwise. *)
Definition w_tailgating : World :=
  let w := init_world configured in
  {| lead_car := mkCar (of_int 500) (of_int 200);
     follower_car := mkCar (of_int 243) (of_int 200);
     pid_accel := pid_accel w;
     pid_brake := pid_brake w;
     reaction_buffer := reaction_buffer w;
     road_offset := road_offset w;
     last_accel := last_accel w;
     running := running w |}.

(** What the iteration on [fr] that follows a run of [main] on [frames]
    does: its branch, whether the deadband test held, and whether the
    brake PID's [prev_error] is 0 at its end. *)
Definition last_iteration (frames : list Frame) (fr : Frame)
  : option (mode * bool * bool) :=
  match main frames with
  | Ok (w, _) =>
      match loop_body configured w fr with
      | Ok (w', tk) =>
          Some (mode_of configured tk, in_deadband tk,
                Qc_eq_bool (prev_error (pid_brake w')) 0)
      | Raise _ => None
      end
  | Raise _ => None
  end.

(** The capacity of the reaction buffer, as a number of samples. *)
Definition capacity : nat := Z.to_nat max_len.

(** [n] samples told apart by their distance: 1, 2, ..., [n]. *)
Definition numbered (n : nat) : list Sample :=
  map (fun i => mkSample (of_int (Z.of_nat i)) 0) (seq 1 n).

(** Two runs that differ in what the controller does not read: the road
    offset, and (for a lead car at rest) whether S is held; the second run
    also ends on a [QUIT] event. *)
Definition w_scrolled : World :=
  let w := init_world configured in
  {| lead_car := lead_car w;
     follower_car := follower_car w;
     pid_accel := pid_accel w;
     pid_brake := pid_brake w;
     reaction_buffer := reaction_buffer w;
     road_offset := of_int 70;
     last_accel := last_accel w;
     running := running w |}.

Definition replay_a : list Frame := [idle 17; idle 17].
Definition replay_b : list Frame := [hold_s 17; mkFrame 17 true false true].

(** ** Further vocabulary *)

(** A sequence of [update(error, dt)] calls on one PID object: the final
    object and the values returned. *)
Fixpoint update_all (c : PIDController) (steps : list (Qc * Qc))
  : M (PIDController * list Qc) :=
  match steps with
  | [] => ret (c, [])
  | (error, dt) :: rest =>
      '(c1, out) <- PID.update c error dt ;;
      '(c2, outs) <- update_all c1 rest ;;
      ret (c2, out :: outs)
  end.

(** The sum of [error * dt] over a sequence of calls. *)
Fixpoint accumulated (steps : list (Qc * Qc)) : Qc :=
  match steps with
  | [] => 0
  | (error, dt) :: rest => error * dt + accumulated rest
  end.

(** The time a run has taken: the sum of its [dt]. *)
Fixpoint elapsed (ticks : list Tick) : Qc :=
  match ticks with
  | [] => 0
  | tk :: rest => tick_dt tk + elapsed rest
  end.

(** The sample an iteration pushes (line 162). *)
Definition sample_of (tk : Tick) : Sample :=
  mkSample (true_distance tk) (true_rel_speed tk).

(** Lines 148-152 of [main]. *)
Definition user_accel (fr : Frame) : Qc :=
  if K_w fr then MAX_ACCEL else if K_s fr then MAX_BRAKE else 0.

(** *** The road markings *)

Definition DASH_LENGTH : Z := 40.
Definition GAP_LENGTH : Z := 30.

(** [a % b] on floats: the remainder takes the sign of the divisor. *)
Definition pymod (a b : Qc) : M Qc :=
  if Qc_eq_bool b 0 then Raise ZeroDivisionError
  else ret (a - b * of_int (Qfloor (a / b))).

(** Lines 233-237 of [main]: the [x] at which [while x < WIDTH] draws a
    pair of dashes; [None] when [fuel] iterations do not end the loop. *)
Fixpoint dash_loop (fuel : nat) (pattern x : Qc) : option (list Qc) :=
  match fuel with
  | O => None
  | S fuel' =>
      if ltb x (of_int WIDTH)
      then match dash_loop fuel' pattern (x + pattern) with
           | Some xs => Some (x :: xs)
           | None => None
           end
      else Some []
  end.

(** Lines 230-237 of [main]. *)
Definition road_dashes (fuel : nat) (road_offset : Qc)
  : M (option (list Qc)) :=
  let pattern := of_int (DASH_LENGTH + GAP_LENGTH) in
  r <- pymod road_offset pattern ;;
  let start_x := r - pattern in
  ret (dash_loop fuel pattern start_x).

(** [n] positions from [x], [step] apart. *)
Fixpoint spaced (x step : Qc) (n : nat) : list Qc :=
  match n with
  | O => []
  | S n' => x :: spaced (x + step) step n'
  end.

(** Both cars at rest at the target distance, nothing commanded, and
    nothing but that situation in the reaction buffer. *)
Definition at_rest (profile : Qc) (w : World) : Prop :=
  lead_car w = mkCar (of_int (WIDTH / 2)) 0 /\
  follower_car w = mkCar (of_int (WIDTH / 2) - TARGET_DISTANCE profile) 0 /\
  last_accel w = 0 /\
  Forall (eq (mkSample (TARGET_DISTANCE profile) 0)) (reaction_buffer w).

(** ** Tactics *)

(** Linear goals on [Qc] are sent to [Q]. *)
Ltac to_Q :=
  unfold Qcle, Qclt in *;
  cbn [this Q2Qc Qcplus Qcminus Qcopp Qcmult Qcinv of_int fl] in *;
  rewrite ?Qred_correct in *.

(** Two closed numbers differ. *)
Ltac qc_neq := let H := fresh in intros H; apply (f_equal this) in H;
  vm_compute in H; discriminate.

(** ** Order facts on Python numbers *)

Lemma ltb_true (a b : Qc) : ltb a b = true <-> a < b.
Proof.
  unfold ltb. rewrite Qclt_alt.
  destruct (a ?= b); split; intros H; try reflexivity; discriminate.
Qed.

Lemma ltb_false (a b : Qc) : ltb a b = false <-> b <= a.
Proof.
  split; intros H.
  - apply Qcnot_lt_le. intros L. apply ltb_true in L. congruence.
  - destruct (ltb a b) eqn:E; [|reflexivity].
    apply ltb_true in E. exfalso. exact (Qcle_not_lt _ _ H E).
Qed.

Lemma pymax_ge_l (a b : Qc) : a <= pymax a b.
Proof.
  unfold pymax. destruct (ltb a b) eqn:E.
  - apply Qclt_le_weak, ltb_true, E.
  - apply Qcle_refl.
Qed.

Lemma pymax_ge_r (a b : Qc) : b <= pymax a b.
Proof.
  unfold pymax. destruct (ltb a b) eqn:E.
  - apply Qcle_refl.
  - apply ltb_false, E.
Qed.

Lemma pymax_lub (a b c : Qc) : a <= c -> b <= c -> pymax a b <= c.
Proof. unfold pymax. destruct (ltb a b); auto. Qed.

Lemma pymin_le_l (a b : Qc) : pymin a b <= a.
Proof.
  unfold pymin. destruct (ltb b a) eqn:E.
  - apply Qclt_le_weak, ltb_true, E.
  - apply Qcle_refl.
Qed.

Lemma pymin_le_r (a b : Qc) : pymin a b <= b.
Proof.
  unfold pymin. destruct (ltb b a) eqn:E.
  - apply Qcle_refl.
  - apply ltb_false, E.
Qed.

Lemma pymin_glb (a b c : Qc) : c <= a -> c <= b -> c <= pymin a b.
Proof. unfold pymin. destruct (ltb b a); auto. Qed.

Lemma of_int_nonneg (z : Z) : (0 <= z)%Z -> 0 <= of_int z.
Proof.
  intros H. to_Q. unfold Qle, inject_Z. simpl. lia.
Qed.

Lemma Qcmult_nonneg (a b : Qc) : 0 <= a -> 0 <= b -> 0 <= a * b.
Proof.
  intros Ha Hb. to_Q. apply Qmult_le_0_compat; assumption.
Qed.

Lemma Qcinv_nonneg (a : Qc) : 0 <= a -> 0 <= / a.
Proof.
  intros Ha. to_Q. apply Qinv_le_0_compat. exact Ha.
Qed.

Lemma frame_dt_nonneg (fr : Frame) : 0 <= frame_dt fr.
Proof.
  unfold frame_dt, Qcdiv. apply Qcmult_nonneg.
  - apply of_int_nonneg. lia.
  - apply Qcinv_nonneg, of_int_nonneg. lia.
Qed.

(** ** The rate limiter *)

Lemma MAX_JERK_nonneg : 0 <= MAX_JERK.
Proof. apply of_int_nonneg. lia. Qed.

Lemma jerk_limit_window (last d dt : Qc) :
  0 <= dt ->
  last - MAX_JERK * dt <= jerk_limit last d dt <= last + MAX_JERK * dt.
Proof.
  intros Hdt. unfold jerk_limit.
  assert (Hmd : 0 <= MAX_JERK * dt)
    by (apply Qcmult_nonneg; [apply MAX_JERK_nonneg | exact Hdt]).
  set (md := MAX_JERK * dt) in *.
  split.
  - apply pymax_ge_l.
  - apply pymax_lub.
    + clearbody md. to_Q. lra.
    + apply pymin_le_l.
Qed.


(** ** No iteration raises *)

Lemma truediv_pos (a b : Qc) : 0 < b -> truediv a b = Ok (a / b).
Proof.
  intros Hb. unfold truediv.
  destruct (Qc_eq_bool b 0) eqn:E; [|reflexivity].
  apply Qc_eq_bool_correct in E. subst b.
  exfalso. exact (Qclt_not_eq _ _ Hb eq_refl).
Qed.

Lemma PID_update_ok (c : PIDController) (error dt : Qc) :
  PID.update c error dt = Ok (updated c error dt, output c error dt).
Proof.
  unfold PID.update, updated, output. destruct (ltb 0 dt) eqn:E.
  - apply ltb_true in E. rewrite (truediv_pos _ _ E). reflexivity.
  - reflexivity.
Qed.

Lemma time_to_contact_ok (d r : Qc) :
  time_to_contact d r = Ok (if ltb 0 r then Finite (d / r) else Inf).
Proof.
  unfold time_to_contact. destruct (ltb 0 r) eqn:E; [|reflexivity].
  apply ltb_true in E. rewrite (truediv_pos _ _ E). reflexivity.
Qed.

Lemma max_len_value : max_len = 30%Z.
Proof. reflexivity. Qed.

Lemma perceive_ok (buf : Deque.t) (s : Sample) :
  perceive buf s = Ok (pushed buf s, hd s (pushed buf s)).
Proof.
  unfold perceive, pushed, Deque.append.
  destruct (max_len <? Deque.len (buf ++ [s]))%Z eqn:E.
  - apply Z.ltb_lt in E. rewrite max_len_value in E. unfold Deque.len in E.
    destruct (buf ++ [s]) as [|a [|b l]] eqn:B; simpl in E; try lia.
    reflexivity.
  - destruct buf; reflexivity.
Qed.

Lemma arbitrate_total (profile : Qc) (pa pb : PIDController)
      (d mfd : Qc) (t : xfloat) (e dt : Qc) :
  exists a, arbitrate profile pa pb d mfd t e dt = Ok a.
Proof.
  unfold arbitrate.
  destruct (ltb (Qcabs e) DEADBAND);
    destruct (ltb d mfd); try (eexists; reflexivity);
    destruct t as [t|];
    try destruct (ltb t (DESIRED_TTC profile));
    try destruct (ltb t (MIN_TTC profile));
    rewrite ?PID_update_ok; cbn [bind ret]; eexists; reflexivity.
Qed.

Lemma loop_body_total (profile : Qc) (w : World) (fr : Frame) :
  exists w' tk, loop_body profile w fr = Ok (w', tk).
Proof.
  unfold loop_body.
  rewrite perceive_ok. cbn [bind].
  rewrite time_to_contact_ok. cbn [bind].
  match goal with
  | |- context [arbitrate ?p ?a ?b ?d ?m ?t ?e ?dt] =>
      destruct (arbitrate_total p a b d m t e dt) as [r Hr]; rewrite Hr
  end.
  cbn [bind ret]. eexists. eexists. reflexivity.
Qed.

(** ** One iteration, read back from its result *)

Lemma loop_body_inv (profile : Qc) (w : World) (fr : Frame) (w' : World) (tk : Tick) :
  loop_body profile w fr = Ok (w', tk) ->
  tick_dt tk = frame_dt fr /\
  reaction_buffer w' =
    pushed (reaction_buffer w) (mkSample (true_distance tk) (true_rel_speed tk)) /\
  perceived tk =
    hd (mkSample (true_distance tk) (true_rel_speed tk)) (reaction_buffer w') /\
  min_follow_distance tk =
    STANDSTILL_DISTANCE + speed (follower_car w) * TIME_HEADWAY profile /\
  time_to_contact (distance (perceived tk)) (rel_speed (perceived tk)) =
    Ok (ttc tk) /\
  distance_error tk =
    distance (perceived tk)
    - pymax (TARGET_DISTANCE profile) (min_follow_distance tk) /\
  arbitrate profile (pid_accel w) (pid_brake w)
            (distance (perceived tk)) (min_follow_distance tk) (ttc tk)
            (distance_error tk) (tick_dt tk) =
    Ok (mkArb (pid_accel w') (pid_brake w') (proposed_accel tk) (calls tk)) /\
  commanded_accel tk =
    jerk_limit (last_accel w) (proposed_accel tk) (tick_dt tk) /\
  last_accel w' = commanded_accel tk /\
  speed (follower_car w') =
    speed (CarM.update (follower_car w) (commanded_accel tk) (tick_dt tk)) /\
  follower_braking tk = ltb (commanded_accel tk) (of_int (-25)) /\
  running w' = (if quit fr then false else running w).
Proof.
  unfold loop_body.
  rewrite perceive_ok. cbn [bind].
  rewrite time_to_contact_ok. cbn [bind].
  match goal with
  | |- context [arbitrate ?p ?a ?b ?d ?m ?t ?e ?dt] =>
      destruct (arbitrate p a b d m t e dt) as [[pa pb des cs]|] eqn:A
  end; cbn [bind ret]; intros H; [|discriminate].
  injection H as <- <-. cbn.
  rewrite time_to_contact_ok.
  repeat split; try reflexivity. exact A.
Qed.

Lemma main_loop_total (profile : Qc) (frames : list Frame) (w : World) :
  exists w' ticks,
    main_loop profile w frames = Ok (w', ticks) /\
    List.length ticks = played (running w) frames.
Proof.
  revert w. induction frames as [|fr rest IH]; intros w.
  - exists w, []. split; reflexivity.
  - cbn [main_loop played]. destruct (running w) eqn:R.
    + destruct (loop_body_total profile w fr) as (w1 & tk & L).
      rewrite L. cbn [bind].
      destruct (IH w1) as (w2 & tks & E & Len).
      rewrite E. cbn [bind ret].
      exists w2, (tk :: tks). split; [reflexivity|].
      cbn [List.length]. rewrite Len. f_equal. f_equal.
      apply loop_body_inv in L. destruct L as (_&_&_&_&_&_&_&_&_&_&_&Run).
      rewrite Run, R. destruct (quit fr); reflexivity.
    + exists w, []. split; reflexivity.
Qed.

Lemma main_loop_cons (profile : Qc) (w : World) (fr : Frame) (rest : list Frame)
      (w' : World) (ticks : list Tick) :
  main_loop profile w (fr :: rest) = Ok (w', ticks) ->
  running w = true ->
  exists w1 tk tks,
    loop_body profile w fr = Ok (w1, tk) /\
    main_loop profile w1 rest = Ok (w', tks) /\
    ticks = tk :: tks.
Proof.
  cbn [main_loop]. intros H R. rewrite R in H.
  destruct (loop_body profile w fr) as [[w1 tk]|] eqn:L; [|discriminate].
  cbn [bind] in H.
  destruct (main_loop profile w1 rest) as [[w2 tks]|] eqn:E; [|discriminate].
  cbn [bind ret] in H. injection H as <- <-.
  exists w1, tk, tks. repeat split; assumption.
Qed.

Lemma main_loop_stopped (profile : Qc) (w : World) (frames : list Frame) :
  running w = false -> main_loop profile w frames = Ok (w, []).
Proof.
  intros R. destruct frames; cbn [main_loop]; [|rewrite R]; reflexivity.
Qed.



(** ** The mode arbitration, branch by branch *)

Lemma arbitrate_spec (profile : Qc) (pa pb : PIDController)
      (d mfd : Qc) (t : xfloat) (e dt : Qc) :
  let dead := ltb (Qcabs e) DEADBAND in
  let pa0 := deadband_reset dead pa in
  let pb0 := deadband_reset dead pb in
  let braking :=
    Ok (mkArb (PID.reset pa0) pb0 MAX_BRAKE (deadband_calls dead ++ [AccelReset])) in
  match select_mode profile d mfd t with
  | TooClose => arbitrate profile pa pb d mfd t e dt = braking
  | MinTTC => arbitrate profile pa pb d mfd t e dt = braking
  | TTCTrim =>
      exists t', t = Finite t' /\
        arbitrate profile pa pb d mfd t e dt =
        Ok (mkArb (PID.reset pa0) (updated pb0 e dt)
                  (pymax (- TTC_GAIN * (DESIRED_TTC profile - t') + output pb0 e dt)
                         MAX_BRAKE)
                  (deadband_calls dead ++ [AccelReset; BrakeUpdate]))
  | Cruise =>
      arbitrate profile pa pb d mfd t e dt =
      Ok (mkArb (updated pa0 e dt) (PID.reset pb0)
                (pymin (output pa0 e dt) MAX_ACCEL)
                (deadband_calls dead ++ [BrakeReset; AccelUpdate]))
  end.
Proof.
  unfold arbitrate, select_mode, deadband_reset, deadband_calls.
  destruct (ltb (Qcabs e) DEADBAND); cbn zeta;
    destruct (ltb d mfd); try reflexivity;
    destruct t as [t|];
    try destruct (ltb t (DESIRED_TTC profile));
    try destruct (ltb t (MIN_TTC profile));
    rewrite ?PID_update_ok; cbn [bind ret];
    try reflexivity;
    exists t; split; reflexivity.
Qed.

(** One iteration in terms of the branch it takes. *)
Lemma loop_body_arbitration (profile : Qc) (w : World) (fr : Frame)
      (w' : World) (tk : Tick) :
  loop_body profile w fr = Ok (w', tk) ->
  let e := distance_error tk in
  let dt := tick_dt tk in
  let pa0 := deadband_reset (in_deadband tk) (pid_accel w) in
  let pb0 := deadband_reset (in_deadband tk) (pid_brake w) in
  let pre := deadband_calls (in_deadband tk) in
  match mode_of profile tk with
  | TooClose | MinTTC =>
      pid_accel w' = PID.reset pa0 /\ pid_brake w' = pb0 /\
      proposed_accel tk = MAX_BRAKE /\ calls tk = pre ++ [AccelReset]
  | TTCTrim =>
      exists t', ttc tk = Finite t' /\
      pid_accel w' = PID.reset pa0 /\ pid_brake w' = updated pb0 e dt /\
      proposed_accel tk =
        pymax (- TTC_GAIN * (DESIRED_TTC profile - t') + output pb0 e dt) MAX_BRAKE /\
      calls tk = pre ++ [AccelReset; BrakeUpdate]
  | Cruise =>
      pid_accel w' = updated pa0 e dt /\ pid_brake w' = PID.reset pb0 /\
      proposed_accel tk = pymin (output pa0 e dt) MAX_ACCEL /\
      calls tk = pre ++ [BrakeReset; AccelUpdate]
  end.
Proof.
  intros H. apply loop_body_inv in H.
  destruct H as (_ & _ & _ & _ & _ & _ & A & _).
  pose proof (arbitrate_spec profile (pid_accel w) (pid_brake w)
                (distance (perceived tk)) (min_follow_distance tk) (ttc tk)
                (distance_error tk) (tick_dt tk)) as S.
  cbn zeta in *. unfold mode_of, in_deadband.
  destruct (select_mode profile (distance (perceived tk))
              (min_follow_distance tk) (ttc tk)).
  - rewrite A in S. injection S as -> -> -> ->. repeat split.
  - rewrite A in S. injection S as -> -> -> ->. repeat split.
  - destruct S as (t' & Ht & S). rewrite A in S.
    injection S as -> -> -> ->. exists t'. repeat split. exact Ht.
  - rewrite A in S. injection S as -> -> -> ->. repeat split.
Qed.

(** ** The branches of one iteration *)

Lemma main_eq (frames : list Frame) :
  main frames = main_loop configured (init_world configured) frames.
Proof. reflexivity. Qed.

(** C2.  Too-close hard floor.  In an iteration whose perceived distance
    is below [min_follow_distance = STANDSTILL_DISTANCE + speed *
    TIME_HEADWAY], the proposed (pre-limit) acceleration is exactly
    [MAX_BRAKE] and the cruise PID has been reset, whether or not the
    deadband test held. *)
Theorem too_close_full_brake (profile : Qc) (w : World) (fr : Frame)
        (w' : World) (tk : Tick) :
  loop_body profile w fr = Ok (w', tk) ->
  distance (perceived tk) < min_follow_distance tk ->
  min_follow_distance tk =
    STANDSTILL_DISTANCE + speed (follower_car w) * TIME_HEADWAY profile /\
  proposed_accel tk = MAX_BRAKE /\
  cleared (pid_accel w') /\
  calls tk = deadband_calls (in_deadband tk) ++ [AccelReset].
Proof.
  intros L Close.
  pose proof (loop_body_inv _ _ _ _ _ L) as (_ & _ & _ & Hmfd & _).
  pose proof (loop_body_arbitration _ _ _ _ _ L) as A. cbn zeta in A.
  unfold mode_of, select_mode in A.
  apply ltb_true in Close. rewrite Close in A.
  destruct A as (Ha & _ & Hp & Hc).
  repeat split; try assumption; rewrite Ha; reflexivity.
Qed.

Lemma too_close_full_brake_witness :
  exists w' tk,
    loop_body configured w_tailgating (idle 17) = Ok (w', tk) /\
    in_deadband tk = true /\
    proposed_accel tk = MAX_BRAKE /\
    cleared (pid_accel w').
Proof.
  destruct (loop_body_total configured w_tailgating (idle 17)) as (w' & tk & L).
  exists w', tk.
  assert (Obs : distance (perceived tk) < min_follow_distance tk /\
                in_deadband tk = true).
  { pose proof L as L2. vm_compute in L2. injection L2 as <- <-.
    split; vm_compute; reflexivity. }
  destruct Obs as [Close Dead].
  destruct (too_close_full_brake configured w_tailgating (idle 17) w' tk L Close)
    as (_ & Hp & Hc & _).
  split; [exact L|]. split; [exact Dead|]. split; [exact Hp | exact Hc].
Defined.

(** C3.  The deadband does not zero the command.  On the first frame of
    [main] with W held for 17 ms, the distance error is inside the
    deadband and neither safety branch fires, yet the cruise branch runs
    after the deadband block and the proposed acceleration is
    [0.3576868], not [0]. *)
Theorem deadband_command_overwritten :
  exists w tk,
    main [hold_w 17]%list = Ok (w, [tk]%list) /\
    in_deadband tk = true /\
    min_follow_distance tk <= distance (perceived tk) /\
    ttc tk = Inf /\
    mode_of configured tk = Cruise /\
    calls tk = [AccelReset; BrakeReset; BrakeReset; AccelUpdate] /\
    proposed_accel tk = fl 0.3576868 /\
    proposed_accel tk <> 0.
Proof.
  eexists. eexists. split; [vm_compute; reflexivity|].
  split; [vm_compute; reflexivity|].
  split; [vm_compute; discriminate|].
  split; [vm_compute; reflexivity|].
  split; [vm_compute; reflexivity|].
  split; [vm_compute; reflexivity|].
  split; [apply Qc_is_canon; vm_compute; reflexivity|].
  qc_neq.
Qed.

(** C6.  TTC division guard.  No iteration raises, and in every
    iteration either the perceived relative speed is not positive, [ttc]
    is [float("inf")] and neither TTC branch is taken, or it is positive
    and [ttc] is the quotient [distance / rel_speed] (whose divisor is
    then not zero). *)
Theorem ttc_division_guard (profile : Qc) (w : World) (fr : Frame) :
  exists w' tk,
    loop_body profile w fr = Ok (w', tk) /\
    ((rel_speed (perceived tk) <= 0 /\
      ttc tk = Inf /\
      (mode_of profile tk = TooClose \/ mode_of profile tk = Cruise) /\
      ~ In BrakeUpdate (calls tk))
     \/
     (0 < rel_speed (perceived tk) /\
      truediv (distance (perceived tk)) (rel_speed (perceived tk)) =
        Ok (distance (perceived tk) / rel_speed (perceived tk)) /\
      ttc tk = Finite (distance (perceived tk) / rel_speed (perceived tk)))).
Proof.
  destruct (loop_body_total profile w fr) as (w' & tk & L).
  exists w', tk. split; [exact L|].
  pose proof (loop_body_inv _ _ _ _ _ L) as (_ & _ & _ & _ & T & _).
  pose proof (loop_body_arbitration _ _ _ _ _ L) as A. cbn zeta in A.
  rewrite time_to_contact_ok in T. injection T as T.
  destruct (ltb 0 (rel_speed (perceived tk))) eqn:E.
  - right. apply ltb_true in E. repeat split.
    + exact E.
    + apply truediv_pos, E.
    + symmetry. exact T.
  - left. apply ltb_false in E. split; [exact E|]. split; [symmetry; exact T|].
    unfold mode_of, select_mode in *. rewrite <- T in *.
    destruct (ltb (distance (perceived tk)) (min_follow_distance tk));
      destruct A as (_ & _ & _ & ->);
      (split; [auto|]); destruct (in_deadband tk); cbn;
      intuition discriminate.
Qed.

(** ** The kinematic step *)

Lemma MAX_SPEED_nonneg : 0 <= MAX_SPEED.
Proof. apply of_int_nonneg. lia. Qed.

Lemma Car_update_speed (car : Car) (accel dt : Qc) :
  0 <= speed (CarM.update car accel dt) <= MAX_SPEED.
Proof.
  cbn. split.
  - apply pymax_ge_l.
  - apply pymax_lub; [apply MAX_SPEED_nonneg | apply pymin_le_r].
Qed.

Lemma main_loop_speed (profile : Qc) (frames : list Frame) (w w' : World)
      (ticks : list Tick) :
  main_loop profile w frames = Ok (w', ticks) ->
  0 <= speed (follower_car w) <= MAX_SPEED ->
  0 <= speed (follower_car w') <= MAX_SPEED.
Proof.
  revert w ticks. induction frames as [|fr rest IH]; intros w ticks H Inv.
  - cbn in H. injection H as <- <-. exact Inv.
  - destruct (running w) eqn:R.
    + destruct (main_loop_cons _ _ _ _ _ _ H R) as (w1 & tk & tks & L & E & ->).
      apply (IH _ _ E).
      pose proof (loop_body_inv _ _ _ _ _ L)
        as (_ & _ & _ & _ & _ & _ & _ & _ & _ & Hs & _).
      rewrite Hs. apply Car_update_speed.
    + rewrite (main_loop_stopped _ _ _ R) in H. injection H as <- <-. exact Inv.
Qed.

(** C9.  Speed saturation.  [Car.update] sets the speed to
    [speed + accel * dt] clamped into [[0, MAX_SPEED]] and then advances
    the position by the clamped speed; so the speed after any update is in
    that range, and so is the follower's speed after any run of the loop. *)
Theorem speed_saturation :
  (forall (car : Car) (accel dt : Qc),
      speed (CarM.update car accel dt) =
        pymax 0 (pymin (speed car + accel * dt) MAX_SPEED) /\
      x (CarM.update car accel dt) =
        x car + speed (CarM.update car accel dt) * dt /\
      0 <= speed (CarM.update car accel dt) <= MAX_SPEED) /\
  (forall (profile : Qc) (frames : list Frame),
      exists w ticks,
        main_loop profile (init_world profile) frames = Ok (w, ticks) /\
        0 <= speed (follower_car w) <= MAX_SPEED).
Proof.
  split.
  - intros car accel dt. split; [reflexivity|]. split; [reflexivity|].
    apply Car_update_speed.
  - intros profile frames.
    destruct (main_loop_total profile frames (init_world profile))
      as (w & ticks & E & _).
    exists w, ticks. split; [exact E|].
    apply (main_loop_speed _ _ _ _ _ E). cbn. split.
    + apply Qcle_refl.
    + apply MAX_SPEED_nonneg.
Qed.

(** ** PID reset *)

(** C4 as stated fails: with gains [(0, 1, 0)], [reset()] followed by
    [update(1, 1)] returns 1, while [kp*error + kd*(error/dt)] is 0: the
    integral is accumulated before it is read. *)
Lemma post_reset_integral_term_counts :
  0 < 1 /\
  exists c' out,
    PID.update (PID.reset (PID.init 0 1 0)) 1 1 = Ok (c', out) /\
    out = 1 /\
    out <> kp (PID.init 0 1 0) * 1 + kd (PID.init 0 1 0) * (1 / 1).
Proof.
  split; [reflexivity|].
  eexists. eexists. split; [vm_compute; reflexivity|].
  split; [apply Qc_is_canon; vm_compute; reflexivity | qc_neq].
Qed.

(** C4, amended.  For all gains, any state of the object, any error and
    any [dt > 0], [reset()] followed by [update(error, dt)] returns
    [kp*error + ki*(error*dt) + kd*(error/dt)] and leaves
    [integral = error*dt], [prev_error = error]; the result is
    [kp*error + kd*(error/dt)] when [ki = 0]. *)
Theorem post_reset_update (c : PIDController) (error dt : Qc) :
  0 < dt ->
  exists c' out,
    PID.update (PID.reset c) error dt = Ok (c', out) /\
    out = kp c * error + ki c * (error * dt) + kd c * (error / dt) /\
    gains c' = gains c /\
    integral c' = error * dt /\
    prev_error c' = error /\
    (ki c = 0 -> out = kp c * error + kd c * (error / dt)).
Proof.
  intros Hdt. rewrite PID_update_ok. eexists. eexists. split; [reflexivity|].
  unfold output, updated, gains. cbn [PID.reset kp ki kd integral prev_error].
  apply ltb_true in Hdt. rewrite Hdt.
  assert (E : kp c * error + ki c * (0 + error * dt) + kd c * ((error - 0) / dt)
              = kp c * error + ki c * (error * dt) + kd c * (error / dt)).
  { unfold Qcdiv. ring. }
  repeat split.
  - exact E.
  - ring.
  - intros K. rewrite E, K. ring.
Qed.

Lemma post_reset_update_witness :
  exists c' out,
    PID.update (PID.reset (mkPID (fl 0.612) (fl 0.5) (fl 0.2) 1 1))
               (of_int 3) (fl 0.017) = Ok (c', out) /\
    out = fl 0.612 * of_int 3 + fl 0.5 * (of_int 3 * fl 0.017)
          + fl 0.2 * (of_int 3 / fl 0.017).
Proof.
  assert (Hdt : 0 < fl 0.017) by reflexivity.
  destruct (post_reset_update (mkPID (fl 0.612) (fl 0.5) (fl 0.2) 1 1)
              (of_int 3) (fl 0.017) Hdt) as (c' & out & U & O & _).
  exists c', out. split; [exact U | exact O].
Defined.

(** ** Reset on loss of authority *)

Lemma Qc_eq_bool_false (a b : Qc) : Qc_eq_bool a b = false -> a <> b.
Proof.
  unfold Qc_eq_bool. intros H E. destruct (Qc_eq_dec a b); [discriminate|].
  contradiction.
Qed.

Lemma last_iteration_some (frames : list Frame) (fr : Frame)
      (m : mode) (d z : bool) :
  last_iteration frames fr = Some (m, d, z) ->
  exists w tks w' tk,
    main frames = Ok (w, tks) /\
    loop_body configured w fr = Ok (w', tk) /\
    mode_of configured tk = m /\
    in_deadband tk = d /\
    Qc_eq_bool (prev_error (pid_brake w')) 0 = z.
Proof.
  unfold last_iteration. intros O.
  destruct (main frames) as [[w tks]|]; [|discriminate].
  destruct (loop_body configured w fr) as [[w' tk]|] eqn:L; [|discriminate].
  injection O as Hm Hd Hz.
  exists w, tks, w', tk. repeat split; assumption.
Qed.

Lemma last_iteration_approach :
  last_iteration approach (idle 100) = Some (TooClose, false, false).
Proof. vm_compute. reflexivity. Qed.

(** C7 as stated fails.  Run [main] on [approach] and one more idle frame:
    the last iteration takes the too-close branch outside the deadband;
    it calls neither [update] nor [reset] on the brake PID, whose
    [prev_error], set by the TTC branch of the iteration before, is not 0
    at its end. *)
Lemma brake_pid_kept_when_too_close :
  exists w tks w' tk,
    main approach = Ok (w, tks) /\
    loop_body configured w (idle 100) = Ok (w', tk) /\
    mode_of configured tk = TooClose /\
    in_deadband tk = false /\
    calls tk = [AccelReset]%list /\
    pid_brake w' = pid_brake w /\
    ~ cleared (pid_brake w').
Proof.
  destruct (last_iteration_some _ _ _ _ _ last_iteration_approach)
    as (w & tks & w' & tk & E & L & Hm & Hd & Hz).
  exists w, tks, w', tk.
  pose proof (loop_body_arbitration _ _ _ _ _ L) as A. cbn zeta in A.
  rewrite Hm, Hd in A. destruct A as (_ & Hb & _ & Hc).
  split; [exact E|]. split; [exact L|].
  split; [exact Hm|]. split; [exact Hd|].
  split; [exact Hc|]. split; [exact Hb|].
  intros [_ Z]. exact (Qc_eq_bool_false _ _ Hz Z).
Qed.

Lemma last_iteration_trim :
  last_iteration (removelast approach) (idle 100) = Some (TTCTrim, true, false).
Proof. vm_compute. reflexivity. Qed.

(** C7, amended.  In every iteration the cruise PID is reset whenever its
    [update] is not called (the too-close branch and both TTC branches),
    and the brake PID is reset in the cruise branch and whenever the
    deadband test holds, in whichever branch: in the TTC-trim branch
    inside the deadband it is reset and then updated, so that the update
    starts from a cleared object.  In the too-close branch and in the
    [ttc < MIN_TTC] branch outside the deadband the brake PID is neither
    updated nor reset: it is left as it was. *)
Theorem reset_on_loss_of_authority (profile : Qc) (w : World) (fr : Frame)
        (w' : World) (tk : Tick) :
  loop_body profile w fr = Ok (w', tk) ->
  (in_deadband tk = true ->
   In AccelReset (calls tk) /\ In BrakeReset (calls tk)) /\
  match mode_of profile tk with
  | TooClose | MinTTC =>
      cleared (pid_accel w') /\ In AccelReset (calls tk) /\
      ~ In AccelUpdate (calls tk) /\ ~ In BrakeUpdate (calls tk) /\
      (if in_deadband tk
       then cleared (pid_brake w') /\ In BrakeReset (calls tk)
       else pid_brake w' = pid_brake w /\ ~ In BrakeReset (calls tk))
  | TTCTrim =>
      cleared (pid_accel w') /\ In AccelReset (calls tk) /\
      ~ In AccelUpdate (calls tk) /\ In BrakeUpdate (calls tk) /\
      (if in_deadband tk
       then In BrakeReset (calls tk) /\
            calls tk = [AccelReset; BrakeReset; AccelReset; BrakeUpdate]%list /\
            pid_brake w' =
              updated (PID.reset (pid_brake w)) (distance_error tk) (tick_dt tk)
       else ~ In BrakeReset (calls tk) /\
            calls tk = [AccelReset; BrakeUpdate]%list /\
            pid_brake w' =
              updated (pid_brake w) (distance_error tk) (tick_dt tk))
  | Cruise =>
      cleared (pid_brake w') /\ In BrakeReset (calls tk) /\
      ~ In BrakeUpdate (calls tk) /\ In AccelUpdate (calls tk) /\
      (if in_deadband tk
       then In AccelReset (calls tk) /\
            calls tk = [AccelReset; BrakeReset; BrakeReset; AccelUpdate]%list /\
            pid_accel w' =
              updated (PID.reset (pid_accel w)) (distance_error tk) (tick_dt tk)
       else ~ In AccelReset (calls tk) /\
            calls tk = [BrakeReset; AccelUpdate]%list /\
            pid_accel w' =
              updated (pid_accel w) (distance_error tk) (tick_dt tk))
  end.
Proof.
  intros L. pose proof (loop_body_arbitration _ _ _ _ _ L) as A.
  cbn zeta in A. split.
  - intros D. rewrite D in A.
    destruct (mode_of profile tk).
    + destruct A as (_ & _ & _ & ->). cbn. intuition.
    + destruct A as (_ & _ & _ & ->). cbn. intuition.
    + destruct A as (t' & _ & _ & _ & _ & ->). cbn. intuition.
    + destruct A as (_ & _ & _ & ->). cbn. intuition.
  - destruct (mode_of profile tk).
    + destruct A as (-> & -> & _ & ->).
      destruct (in_deadband tk); cbn; repeat split;
        try reflexivity; intuition discriminate.
    + destruct A as (-> & -> & _ & ->).
      destruct (in_deadband tk); cbn; repeat split;
        try reflexivity; intuition discriminate.
    + destruct A as (t' & _ & -> & -> & _ & ->).
      destruct (in_deadband tk); cbn; repeat split;
        try reflexivity; intuition discriminate.
    + destruct A as (-> & -> & _ & ->).
      destruct (in_deadband tk); cbn; repeat split;
        try reflexivity; intuition discriminate.
Qed.

Lemma reset_on_loss_of_authority_witness :
  exists w tks w' tk,
    main (removelast approach) = Ok (w, tks) /\
    loop_body configured w (idle 100) = Ok (w', tk) /\
    mode_of configured tk = TTCTrim /\
    in_deadband tk = true /\
    calls tk = [AccelReset; BrakeReset; AccelReset; BrakeUpdate]%list /\
    cleared (pid_accel w') /\
    pid_brake w' =
      updated (PID.reset (pid_brake w)) (distance_error tk) (tick_dt tk).
Proof.
  destruct (last_iteration_some _ _ _ _ _ last_iteration_trim)
    as (w & tks & w' & tk & E & L & Hm & Hd & _).
  exists w, tks, w', tk.
  pose proof (reset_on_loss_of_authority configured w (idle 100) w' tk L)
    as [_ R].
  rewrite Hm, Hd in R. destruct R as (Hc & _ & _ & _ & _ & Hcalls & Hb).
  split; [exact E|]. split; [exact L|].
  split; [exact Hm|]. split; [exact Hd|].
  split; [exact Hcalls|]. split; [exact Hc | exact Hb].
Defined.

(** ** The reaction buffer *)

Lemma capacity_value : capacity = 30%nat.
Proof. reflexivity. Qed.

Lemma tl_skipn (k : nat) (l : list Sample) : tl (skipn k l) = skipn (S k) l.
Proof.
  revert k. induction l as [|a l IH]; intros [|k]; try reflexivity.
  cbn [skipn]. apply IH.
Qed.

Lemma hd_skipn (k : nat) (l : list Sample) (d : Sample) :
  hd d (skipn k l) = nth k l d.
Proof.
  rewrite <- (Nat.add_0_r k) at 2. rewrite <- nth_skipn.
  destruct (skipn k l); reflexivity.
Qed.

(** The deque holds the last [capacity] samples pushed. *)
Lemma pushed_window (pre : list Sample) (s : Sample) :
  pushed (skipn (List.length pre - capacity) pre) s =
  skipn (List.length (pre ++ [s]) - capacity) (pre ++ [s]).
Proof.
  unfold pushed, Deque.len.
  rewrite !length_app, length_skipn, max_len_value, capacity_value.
  cbn [List.length].
  destruct (30 <? _)%Z eqn:E.
  - apply Z.ltb_lt in E.
    assert (A : skipn (List.length pre - 30) pre ++ [s] =
                skipn (List.length pre - 30) (pre ++ [s])).
    { rewrite skipn_app.
      replace (List.length pre - 30 - List.length pre)%nat with O by lia.
      reflexivity. }
    rewrite A, tl_skipn. f_equal. lia.
  - apply Z.ltb_ge in E.
    replace (List.length pre - 30)%nat with O by lia.
    replace (List.length pre + 1 - 30)%nat with O by lia.
    reflexivity.
Qed.

Lemma feed_window (samples pre : list Sample) :
  exists seen,
    feed (skipn (List.length pre - capacity) pre) samples =
      Ok (skipn (List.length (pre ++ samples) - capacity) (pre ++ samples), seen) /\
    List.length seen = List.length samples /\
    forall k d, (k < List.length samples)%nat ->
      nth k seen d =
      nth (List.length pre + k - (capacity - 1)) (pre ++ samples) d.
Proof.
  revert pre. induction samples as [|s rest IH]; intros pre.
  - exists []. rewrite app_nil_r. repeat split. intros k d Hk. inversion Hk.
  - cbn [feed]. rewrite perceive_ok, pushed_window. cbn [bind].
    destruct (IH (pre ++ [s])) as (seen & F & Len & Nth).
    rewrite F. cbn [bind ret]. rewrite <- app_assoc in *. cbn [app] in *.
    eexists. split; [reflexivity|]. split; [cbn; rewrite Len; reflexivity|].
    intros k d Hk. destruct k as [|k].
    + cbn [nth]. rewrite hd_skipn.
      rewrite length_app, capacity_value. cbn [List.length].
      replace (List.length pre + 0 - (30 - 1))%nat
        with (List.length pre + 1 - 30)%nat by lia.
      replace (pre ++ s :: rest) with ((pre ++ [s]) ++ rest)
        by (rewrite <- app_assoc; reflexivity).
      rewrite (app_nth1 (pre ++ [s]) rest) by (rewrite length_app; cbn; lia).
      apply nth_indep. rewrite length_app. cbn. lia.
    + cbn [nth]. rewrite Nth by (cbn in Hk; lia).
      f_equal. rewrite length_app. cbn [List.length]. lia.
Qed.

(** C5 as stated fails.  Push 31 numbered samples: the read that follows
    the 31st push returns sample 2, pushed 29 iterations earlier, and not
    sample 1, the one pushed [capacity = 30] iterations earlier. *)
Lemma delay_is_one_iteration_short :
  exists buf seen,
    feed Deque.empty (numbered 31) = Ok (buf, seen) /\
    nth 30 seen (mkSample 0 0) = mkSample (of_int 2) 0 /\
    nth (30 - capacity) (numbered 31) (mkSample 0 0) = mkSample (of_int 1) 0 /\
    nth 30 seen (mkSample 0 0)
      <> nth (30 - capacity) (numbered 31) (mkSample 0 0).
Proof.
  eexists. eexists. split; [vm_compute; reflexivity|].
  split; [reflexivity|]. split; [reflexivity|].
  intros H. apply (f_equal (fun s => this (distance s))) in H.
  vm_compute in H. discriminate.
Qed.

(** C5, amended.  Pushing [samples] one per iteration into the empty
    buffer never raises and leaves the last [capacity] of them in it; the
    read of iteration [k] (counted from 0) returns the sample pushed
    [capacity - 1] iterations earlier, and the very first sample as long
    as no more than [capacity] samples have been pushed
    ([capacity = int(REACTION_TIME * FPS) = 30]). *)
Theorem delay_buffer_reads (samples : list Sample) (k : nat) (d : Sample) :
  (k < List.length samples)%nat ->
  exists buf seen,
    feed Deque.empty samples = Ok (buf, seen) /\
    buf = skipn (List.length samples - capacity) samples /\
    List.length seen = List.length samples /\
    nth k seen d = nth (k - (capacity - 1)) samples d /\
    ((k < capacity)%nat -> nth k seen d = nth 0 samples d).
Proof.
  intros Hk.
  destruct (feed_window samples []) as (seen & F & Len & Nth).
  cbn [List.length app] in *. rewrite skipn_nil in F.
  exists (skipn (List.length samples - capacity) samples), seen.
  split; [exact F|]. split; [reflexivity|]. split; [exact Len|].
  specialize (Nth k d Hk). cbn [Nat.add] in Nth.
  split; [exact Nth|].
  intros Hc. rewrite Nth. f_equal. lia.
Qed.

Lemma delay_buffer_reads_witness :
  exists buf seen,
    feed Deque.empty (numbered 40) = Ok (buf, seen) /\
    nth 35 seen (mkSample 0 0) = mkSample (of_int 7) 0.
Proof.
  assert (Hk : (35 < List.length (numbered 40))%nat) by (vm_compute; lia).
  destruct (delay_buffer_reads (numbered 40) 35 (mkSample 0 0) Hk)
    as (buf & seen & F & _ & _ & Nth & _).
  exists buf, seen. split; [exact F|]. rewrite Nth. reflexivity.
Defined.

(** ** The profile *)

Lemma loop_body_gains (profile : Qc) (w : World) (fr : Frame)
      (w' : World) (tk : Tick) :
  loop_body profile w fr = Ok (w', tk) ->
  gains (pid_accel w') = gains (pid_accel w) /\
  gains (pid_brake w') = gains (pid_brake w).
Proof.
  intros L. pose proof (loop_body_arbitration _ _ _ _ _ L) as A.
  cbn zeta in A.
  destruct (mode_of profile tk);
    [ destruct A as (-> & -> & _)
    | destruct A as (-> & -> & _)
    | destruct A as (t' & _ & -> & -> & _)
    | destruct A as (-> & -> & _) ];
    destruct (in_deadband tk); split; reflexivity.
Qed.

Lemma main_loop_gains (profile : Qc) (frames : list Frame) (w w' : World)
      (ticks : list Tick) :
  main_loop profile w frames = Ok (w', ticks) ->
  gains (pid_accel w') = gains (pid_accel w) /\
  gains (pid_brake w') = gains (pid_brake w).
Proof.
  revert w ticks. induction frames as [|fr rest IH]; intros w ticks H.
  - cbn in H. injection H as <- <-. split; reflexivity.
  - destruct (running w) eqn:R.
    + destruct (main_loop_cons _ _ _ _ _ _ H R) as (w1 & tk & tks & L & E & ->).
      destruct (IH _ _ E) as [Ha Hb].
      destruct (loop_body_gains _ _ _ _ _ L) as [Ga Gb].
      split; congruence.
    + rewrite (main_loop_stopped _ _ _ R) in H. injection H as <- <-.
      split; reflexivity.
Qed.

(** C8.  Profile derivation.  The configured profile is
    [PROFILES["well ok..."] = 0.6], in [[0, 1]]; the constants are the
    stated functions of the profile (and the stated values for 0.6); the
    two PID objects are built with the stated gains, and no run of the
    loop changes them. *)
Theorem profile_derivation :
  getitem PROFILES "well ok..." = Ok configured /\
  0 <= configured <= 1 /\
  (forall profile : Qc,
      TARGET_DISTANCE profile = of_int 150 - of_int 5 * profile /\
      TIME_HEADWAY profile = fl 1.8 - profile /\
      DESIRED_TTC profile = fl 2.6 - profile /\
      MIN_TTC profile = fl 1.5 - profile /\
      gains (pid_accel (init_world profile)) =
        (fl 0.6 + fl 0.02 * profile, 0, fl 0.2) /\
      gains (pid_brake (init_world profile)) =
        (fl 1.2 + fl 0.02 * profile, 0, fl 0.6)) /\
  (DEADBAND = of_int 6 /\ TTC_GAIN = of_int 600 /\
   STANDSTILL_DISTANCE = of_int 25 /\ MAX_SPEED = of_int 350 /\
   MAX_ACCEL = of_int 100 /\ MAX_BRAKE = of_int (-300) /\
   MAX_JERK = of_int 1000 /\ REACTION_TIME = fl 0.5) /\
  (TARGET_DISTANCE configured = of_int 147 /\
   TIME_HEADWAY configured = fl 1.2 /\
   DESIRED_TTC configured = of_int 2 /\
   MIN_TTC configured = fl 0.9 /\
   kp (pid_accel (init_world configured)) = fl 0.612 /\
   kp (pid_brake (init_world configured)) = fl 1.212) /\
  (forall (profile : Qc) (frames : list Frame),
      exists w ticks,
        main_loop profile (init_world profile) frames = Ok (w, ticks) /\
        gains (pid_accel w) = gains (pid_accel (init_world profile)) /\
        gains (pid_brake w) = gains (pid_brake (init_world profile))).
Proof.
  split; [reflexivity|].
  split; [split; vm_compute; discriminate|].
  split.
  { intros profile.
    assert (Z : fl 0.0 = 0) by (apply Qc_is_canon; reflexivity).
    repeat split; try reflexivity;
      unfold gains; cbn [init_world PID.init pid_accel pid_brake kp ki kd];
      rewrite (Qcmult_comm profile), Z; reflexivity. }
  split; [repeat split|].
  split; [repeat split; apply Qc_is_canon; vm_compute; reflexivity|].
  intros profile frames.
  destruct (main_loop_total profile frames (init_world profile))
    as (w & ticks & E & _).
  exists w, ticks. split; [exact E|].
  exact (main_loop_gains _ _ _ _ _ E).
Qed.

(** ** Determinism *)

Lemma loop_body_deterministic (profile : Qc) (w1 w2 : World) (fr1 fr2 : Frame)
      (w1' w2' : World) (tk1 tk2 : Tick) :
  loop_body profile w1 fr1 = Ok (w1', tk1) ->
  loop_body profile w2 fr2 = Ok (w2', tk2) ->
  controller_state w1 = controller_state w2 ->
  speed (follower_car w1) = speed (follower_car w2) ->
  tick_inputs tk1 = tick_inputs tk2 ->
  tick_outputs tk1 = tick_outputs tk2 /\
  controller_state w1' = controller_state w2' /\
  speed (follower_car w1') = speed (follower_car w2').
Proof.
  intros L1 L2 Hc Hs Hi.
  apply loop_body_inv in L1. apply loop_body_inv in L2.
  destruct L1 as (_ & B1 & P1 & M1 & T1 & E1 & A1 & C1 & La1 & S1 & F1 & _).
  destruct L2 as (_ & B2 & P2 & M2 & T2 & E2 & A2 & C2 & La2 & S2 & F2 & _).
  unfold controller_state in Hc. injection Hc as Hpa Hpb Hla Hbuf.
  unfold tick_inputs in Hi. injection Hi as Hdt Htd Htr.
  assert (B : reaction_buffer w1' = reaction_buffer w2') by congruence.
  assert (P : perceived tk1 = perceived tk2) by congruence.
  assert (M : min_follow_distance tk1 = min_follow_distance tk2) by congruence.
  assert (T : ttc tk1 = ttc tk2) by congruence.
  assert (E : distance_error tk1 = distance_error tk2) by congruence.
  rewrite Hpa, Hpb, P, M, T, E, Hdt in A1. rewrite A1 in A2.
  injection A2 as Qa Qb Qp Qc'.
  assert (C : commanded_accel tk1 = commanded_accel tk2) by congruence.
  unfold CarM.update in S1, S2. cbn [speed] in S1, S2.
  unfold tick_outputs, controller_state.
  split; [congruence|]. split; congruence.
Qed.

(** C10.  Determinism.  Two runs of the loop that start with the same
    controller state (the two PID objects, [last_accel], the reaction
    buffer) and the same follower speed, and that read the same [dt], true
    distance and true relative speed in every iteration, command the same
    accelerations and show the same braking indicator in every iteration,
    and end with the same controller state; nothing else the loop holds
    or reads has any influence. *)
Theorem replay_determinism (profile : Qc) (frames1 frames2 : list Frame)
        (w1 w2 w1' w2' : World) (ticks1 ticks2 : list Tick) :
  main_loop profile w1 frames1 = Ok (w1', ticks1) ->
  main_loop profile w2 frames2 = Ok (w2', ticks2) ->
  controller_state w1 = controller_state w2 ->
  speed (follower_car w1) = speed (follower_car w2) ->
  map tick_inputs ticks1 = map tick_inputs ticks2 ->
  map tick_outputs ticks1 = map tick_outputs ticks2 /\
  controller_state w1' = controller_state w2'.
Proof.
  revert frames2 w1 w2 ticks1 ticks2.
  induction frames1 as [|fr1 rest1 IH];
    intros frames2 w1 w2 ticks1 ticks2 R1 R2 Hc Hs Hi.
  - cbn in R1. injection R1 as <- <-.
    destruct ticks2 as [|tk2 tks2]; [|discriminate].
    split; [reflexivity|].
    destruct frames2 as [|fr2 rest2].
    + cbn in R2. injection R2 as <-. exact Hc.
    + destruct (running w2) eqn:Run2.
      * destruct (main_loop_cons _ _ _ _ _ _ R2 Run2) as (? & ? & ? & _ & _ & ?).
        discriminate.
      * rewrite (main_loop_stopped _ _ _ Run2) in R2.
        injection R2 as <-. exact Hc.
  - destruct (running w1) eqn:Run1.
    + destruct (main_loop_cons _ _ _ _ _ _ R1 Run1)
        as (v1 & tk1 & tks1 & L1 & E1 & ->).
      destruct ticks2 as [|tk2 tks2]; [discriminate|].
      destruct frames2 as [|fr2 rest2]; [discriminate|].
      destruct (running w2) eqn:Run2.
      * destruct (main_loop_cons _ _ _ _ _ _ R2 Run2)
          as (v2 & tk2' & tks2' & L2 & E2 & Eq).
        injection Eq as <- <-.
        cbn [map] in Hi.
        assert (Hi0 : tick_inputs tk1 = tick_inputs tk2) by congruence.
        assert (Hi' : map tick_inputs tks1 = map tick_inputs tks2)
          by congruence.
        destruct (loop_body_deterministic _ _ _ _ _ _ _ _ _ L1 L2 Hc Hs Hi0)
          as (O & Hc' & Hs').
        destruct (IH _ _ _ _ _ E1 E2 Hc' Hs' Hi') as (Os & Hfin).
        split; [cbn [map]; congruence | exact Hfin].
      * rewrite (main_loop_stopped _ _ _ Run2) in R2. discriminate.
    + rewrite (main_loop_stopped _ _ _ Run1) in R1. injection R1 as <- <-.
      destruct ticks2 as [|tk2 tks2]; [|discriminate].
      split; [reflexivity|].
      destruct frames2 as [|fr2 rest2].
      * cbn in R2. injection R2 as <-. exact Hc.
      * destruct (running w2) eqn:Run2.
        -- destruct (main_loop_cons _ _ _ _ _ _ R2 Run2)
             as (? & ? & ? & _ & _ & ?).
           discriminate.
        -- rewrite (main_loop_stopped _ _ _ Run2) in R2.
           injection R2 as <-. exact Hc.
Qed.

Lemma replay_determinism_witness :
  exists w1' w2' ticks1 ticks2,
    main_loop configured (init_world configured) replay_a = Ok (w1', ticks1) /\
    main_loop configured w_scrolled replay_b = Ok (w2', ticks2) /\
    map lead_braking ticks1 <> map lead_braking ticks2 /\
    map tick_outputs ticks1 = map tick_outputs ticks2.
Proof.
  destruct (main_loop_total configured replay_a (init_world configured))
    as (w1' & t1 & R1 & _).
  destruct (main_loop_total configured replay_b w_scrolled)
    as (w2' & t2 & R2 & _).
  exists w1', w2', t1, t2.
  assert (Hi : map tick_inputs t1 = map tick_inputs t2 /\
               map lead_braking t1 <> map lead_braking t2).
  { pose proof R1 as X1. pose proof R2 as X2.
    vm_compute in X1, X2. injection X1 as <- <-. injection X2 as <- <-.
    split; [vm_compute; reflexivity | vm_compute; discriminate]. }
  destruct Hi as [Hi Hl].
  destruct (replay_determinism configured replay_a replay_b
              (init_world configured) w_scrolled w1' w2' t1 t2
              R1 R2 eq_refl eq_refl Hi) as [Ho _].
  split; [exact R1|]. split; [exact R2|]. split; [exact Hl | exact Ho].
Defined.

(** ** More on the PID controller *)

(** X1.  [update] never divides by zero: for [dt <= 0] the derivative
    term is dropped and the result is [kp*error + ki*integral], for
    [dt > 0] it is the full PID sum; in both cases the integral has
    accumulated [error*dt], [prev_error] is the error, and the gains are
    untouched. *)
Theorem update_guards_division (c : PIDController) (error dt : Qc) :
  exists c' out,
    PID.update c error dt = Ok (c', out) /\
    integral c' = integral c + error * dt /\
    prev_error c' = error /\
    gains c' = gains c /\
    ((dt <= 0 /\ out = kp c * error + ki c * integral c') \/
     (0 < dt /\
      out = kp c * error + ki c * integral c'
            + kd c * ((error - prev_error c) / dt))).
Proof.
  rewrite PID_update_ok. eexists. eexists. split; [reflexivity|].
  unfold updated, output, gains. cbn [integral prev_error kp ki kd].
  repeat split.
  destruct (ltb 0 dt) eqn:E.
  - right. apply ltb_true in E. split; [exact E | reflexivity].
  - left. apply ltb_false in E. split; [exact E | ring].
Qed.

Lemma last_cons (a d : Qc) (l : list Qc) : last (a :: l) d = last l a.
Proof.
  revert a d. induction l as [|b l IH]; intros a d; [reflexivity|].
  change (last (a :: b :: l) d) with (last (b :: l) d).
  rewrite !IH. reflexivity.
Qed.

(** X2.  A sequence of [update] calls never raises; it leaves in the
    integral the sum of [error*dt] over the calls (added to what was
    there: nothing bounds or decays it), in [prev_error] the last error,
    and the gains as they were. *)
Theorem update_all_accumulates (steps : list (Qc * Qc)) (c : PIDController) :
  exists c' outs,
    update_all c steps = Ok (c', outs) /\
    List.length outs = List.length steps /\
    integral c' = integral c + accumulated steps /\
    prev_error c' = last (map fst steps) (prev_error c) /\
    gains c' = gains c.
Proof.
  revert c. induction steps as [|[e dt] rest IH]; intros c.
  - exists c, []. cbn. repeat split. ring.
  - cbn [update_all]. rewrite PID_update_ok. cbn [bind].
    destruct (IH (updated c e dt)) as (c' & outs & U & Len & I & P & G).
    rewrite U. cbn [bind ret]. exists c', (output c e dt :: outs).
    split; [reflexivity|]. split; [cbn; rewrite Len; reflexivity|].
    cbn [accumulated map fst]. cbn [updated integral prev_error] in I, P.
    split; [rewrite I; ring|]. split; [|exact G].
    rewrite P. symmetry. apply last_cons.
Qed.

(** ** More on the rate limiter and the kinematic step *)

Lemma jerk_limit_cases (last d dt : Qc) :
  0 <= dt ->
  (Qcabs (d - last) <= MAX_JERK * dt -> jerk_limit last d dt = d) /\
  (d < last - MAX_JERK * dt -> jerk_limit last d dt = last - MAX_JERK * dt) /\
  (last + MAX_JERK * dt < d -> jerk_limit last d dt = last + MAX_JERK * dt).
Proof.
  intros Hdt.
  assert (Hmd : 0 <= MAX_JERK * dt)
    by (apply Qcmult_nonneg; [apply MAX_JERK_nonneg | exact Hdt]).
  unfold jerk_limit. set (md := MAX_JERK * dt) in *. clearbody md.
  unfold pymax, pymin. repeat split.
  - intros H. apply Qcabs_diff_Qcle_condition in H. destruct H as [H1 H2].
    destruct (ltb d (last + md)) eqn:E1.
    + destruct (ltb (last - md) d) eqn:E2; [reflexivity|].
      apply ltb_false in E2. apply Qcle_antisym; [|exact E2].
      to_Q. lra.
    + apply ltb_false in E1.
      assert (Eq : last + md = d) by (apply Qcle_antisym; [exact E1 | to_Q; lra]).
      rewrite Eq.
      destruct (ltb (last - md) d) eqn:E2; [reflexivity|].
      apply ltb_false in E2. apply Qcle_antisym; [|exact E2].
      to_Q. lra.
  - intros H.
    assert (E1 : ltb d (last + md) = true) by (apply ltb_true; to_Q; lra).
    rewrite E1.
    assert (E2 : ltb (last - md) d = false) by (apply ltb_false; to_Q; lra).
    rewrite E2. reflexivity.
  - intros H.
    assert (E1 : ltb d (last + md) = false) by (apply ltb_false; to_Q; lra).
    rewrite E1.
    destruct (ltb (last - md) (last + md)) eqn:E2; [reflexivity|].
    apply ltb_false in E2. apply Qcle_antisym; [to_Q; lra | exact E2].
Qed.

(** X3.  The rate limiter saturates: for [dt >= 0] a proposal within
    [MAX_JERK*dt] of the last command passes unchanged, a lower one gives
    [last - MAX_JERK*dt] and a higher one [last + MAX_JERK*dt]. *)
Theorem jerk_limit_saturates (last d dt : Qc) :
  0 <= dt ->
  (Qcabs (d - last) <= MAX_JERK * dt -> jerk_limit last d dt = d) /\
  (d < last - MAX_JERK * dt -> jerk_limit last d dt = last - MAX_JERK * dt) /\
  (last + MAX_JERK * dt < d -> jerk_limit last d dt = last + MAX_JERK * dt).
Proof. exact (jerk_limit_cases last d dt). Qed.

Lemma jerk_limit_saturates_witness :
  jerk_limit 0 MAX_BRAKE (fl 0.017) = - of_int 17 /\
  jerk_limit 0 (of_int 5) (fl 0.017) = of_int 5.
Proof.
  assert (Hdt : 0 <= fl 0.017) by (vm_compute; discriminate).
  destruct (jerk_limit_saturates 0 MAX_BRAKE (fl 0.017) Hdt) as (_ & Lo & _).
  destruct (jerk_limit_saturates 0 (of_int 5) (fl 0.017) Hdt) as (In & _ & _).
  split.
  - rewrite Lo by reflexivity. apply Qc_is_canon. reflexivity.
  - apply In. vm_compute. discriminate.
Defined.



(** ** More on one iteration *)

Lemma loop_body_kinematics (profile : Qc) (w : World) (fr : Frame)
      (w' : World) (tk : Tick) :
  loop_body profile w fr = Ok (w', tk) ->
  let lead := CarM.update (lead_car w) (user_accel fr) (frame_dt fr) in
  let fol := CarM.update (follower_car w) (commanded_accel tk) (frame_dt fr) in
  true_distance tk = x lead - x (follower_car w) /\
  true_rel_speed tk = speed (follower_car w) - speed lead /\
  lead_braking tk = ltb (user_accel fr) 0 /\
  lead_car w' = mkCar (of_int (WIDTH / 2)) (speed lead) /\
  follower_car w' = mkCar (x fol - speed lead * frame_dt fr) (speed fol) /\
  road_offset w' = road_offset w - speed lead * frame_dt fr.
Proof.
  unfold loop_body.
  rewrite perceive_ok. cbn [bind].
  rewrite time_to_contact_ok. cbn [bind].
  match goal with
  | |- context [arbitrate ?p ?a ?b ?d ?m ?t ?e ?dt] =>
      destruct (arbitrate p a b d m t e dt) as [[pa pb des cs]|] eqn:A
  end; cbn [bind ret]; intros H; [|discriminate].
  injection H as <- <-. cbn. repeat split.
Qed.


(** X6.  Inside the deadband the cruise branch still commands: when the
    deadband test holds, no safety branch fires and [dt > 0], both PIDs
    are reset first and the proposal is
    [min(kp*e + ki*(e*dt) + kd*(e/dt), MAX_ACCEL)] for the distance error
    [e], with the gains of the cruise PID. *)
Theorem deadband_cruise_command (profile : Qc) (w : World) (fr : Frame)
        (w' : World) (tk : Tick) :
  loop_body profile w fr = Ok (w', tk) ->
  in_deadband tk = true ->
  mode_of profile tk = Cruise ->
  0 < tick_dt tk ->
  proposed_accel tk =
    pymin (kp (pid_accel w) * distance_error tk
           + ki (pid_accel w) * (distance_error tk * tick_dt tk)
           + kd (pid_accel w) * (distance_error tk / tick_dt tk))
          MAX_ACCEL /\
  integral (pid_accel w') = distance_error tk * tick_dt tk /\
  prev_error (pid_accel w') = distance_error tk /\
  cleared (pid_brake w').
Proof.
  intros L D Mo Hdt.
  pose proof (loop_body_arbitration _ _ _ _ _ L) as A. cbn zeta in A.
  rewrite Mo, D in A. destruct A as (-> & -> & -> & _).
  unfold output, updated, deadband_reset.
  cbn [PID.reset kp ki kd integral prev_error].
  apply ltb_true in Hdt. rewrite Hdt.
  split; [f_equal; unfold Qcdiv; ring|].
  split; [ring|]. split; [reflexivity|]. split; reflexivity.
Qed.

Lemma deadband_cruise_command_witness :
  exists w' tk,
    loop_body configured (init_world configured) (hold_w 17) = Ok (w', tk) /\
    proposed_accel tk =
      pymin (fl 0.612 * fl 0.0289 + 0 * (fl 0.0289 * fl 0.017)
             + fl 0.2 * (fl 0.0289 / fl 0.017)) MAX_ACCEL.
Proof.
  destruct (loop_body_total configured (init_world configured) (hold_w 17))
    as (w' & tk & L).
  exists w', tk.
  assert (Obs : in_deadband tk = true /\ mode_of configured tk = Cruise /\
                0 < tick_dt tk /\ distance_error tk = fl 0.0289 /\
                tick_dt tk = fl 0.017).
  { pose proof L as L2. vm_compute in L2. injection L2 as <- <-.
    repeat split; try (apply Qc_is_canon); vm_compute; reflexivity. }
  destruct Obs as (D & Mo & Hdt & He & Ht).
  destruct (deadband_cruise_command configured (init_world configured)
              (hold_w 17) w' tk L D Mo Hdt) as (P & _).
  split; [exact L|]. rewrite P, He, Ht.
  apply Qc_is_canon. vm_compute. reflexivity.
Defined.

(** X7.  The brake light of the lead car shows exactly when S is held
    and W is not: W wins over S. *)
Theorem lead_brake_light (profile : Qc) (w : World) (fr : Frame) :
  exists w' tk,
    loop_body profile w fr = Ok (w', tk) /\
    lead_braking tk = (K_s fr && negb (K_w fr))%bool /\
    speed (lead_car w') =
      speed (CarM.update (lead_car w)
               (if K_w fr then MAX_ACCEL else if K_s fr then MAX_BRAKE else 0)
               (frame_dt fr)).
Proof.
  destruct (loop_body_total profile w fr) as (w' & tk & L).
  exists w', tk. split; [exact L|].
  pose proof (loop_body_kinematics _ _ _ _ _ L) as K. cbn zeta in K.
  destruct K as (_ & _ & B & Lc & _).
  rewrite B, Lc. unfold user_accel.
  split; [|reflexivity].
  destruct (K_w fr), (K_s fr); reflexivity.
Qed.



(** ** More on runs of the loop *)

Lemma main_loop_ramp (profile : Qc) (frames : list Frame) (w w' : World)
      (ticks : list Tick) :
  main_loop profile w frames = Ok (w', ticks) ->
  0 <= elapsed ticks /\
  last_accel w - MAX_JERK * elapsed ticks <= last_accel w'
  <= last_accel w + MAX_JERK * elapsed ticks.
Proof.
  revert w ticks. induction frames as [|fr rest IH]; intros w ticks H.
  - cbn in H. injection H as <- <-. cbn [elapsed].
    rewrite Qcmult_0_r. split; [apply Qcle_refl|]. split; to_Q; lra.
  - destruct (running w) eqn:R.
    + destruct (main_loop_cons _ _ _ _ _ _ H R) as (w1 & tk & tks & L & E & ->).
      pose proof (loop_body_inv _ _ _ _ _ L)
        as (Hdt & _ & _ & _ & _ & _ & _ & Hcmd & Hlast & _).
      destruct (IH _ _ E) as (Pos & Lo & Hi).
      pose proof (frame_dt_nonneg fr) as Dt. rewrite <- Hdt in Dt.
      destruct (jerk_limit_window (last_accel w) (proposed_accel tk)
                  (tick_dt tk) Dt) as [Jlo Jhi].
      rewrite <- Hcmd, <- Hlast in Jlo, Jhi.
      cbn [elapsed]. rewrite Qcmult_plus_distr_r.
      set (a := MAX_JERK * tick_dt tk) in *.
      set (b := MAX_JERK * elapsed tks) in *.
      set (d := tick_dt tk) in *. set (e := elapsed tks) in *.
      clearbody a b d e. split; [to_Q; lra|]. split; to_Q; lra.
    + rewrite (main_loop_stopped _ _ _ R) in H. injection H as <- <-.
      cbn [elapsed]. rewrite Qcmult_0_r.
      split; [apply Qcle_refl|]. split; to_Q; lra.
Qed.

(** X9.  The command ramps from 0: after any run of the loop from the
    initial state, the commanded acceleration is at most [MAX_JERK] times
    the time the run has taken, in absolute value. *)
Theorem command_ramps_from_zero (profile : Qc) (frames : list Frame) :
  exists w ticks,
    main_loop profile (init_world profile) frames = Ok (w, ticks) /\
    0 <= elapsed ticks /\
    Qcabs (last_accel w) <= MAX_JERK * elapsed ticks.
Proof.
  destruct (main_loop_total profile frames (init_world profile))
    as (w & ticks & E & _).
  exists w, ticks. split; [exact E|].
  destruct (main_loop_ramp _ _ _ _ _ E) as (Pos & Lo & Hi).
  split; [exact Pos|].
  apply Qcabs_Qcle_condition.
  change (last_accel (init_world profile)) with 0 in Lo, Hi.
  set (b := MAX_JERK * elapsed ticks) in *. clearbody b.
  split; to_Q; lra.
Qed.

Lemma frame_dt_zero (fr : Frame) : ms fr = 0%N -> frame_dt fr = 0.
Proof.
  intros H. unfold frame_dt. rewrite H. apply Qc_is_canon. reflexivity.
Qed.

Lemma jerk_limit_zero (last d : Qc) : jerk_limit last d 0 = last.
Proof.
  destruct (jerk_limit_window last d 0 (Qcle_refl 0)) as [Lo Hi].
  rewrite Qcmult_0_r in Lo, Hi.
  set (j := jerk_limit last d 0) in *. clearbody j.
  apply Qcle_antisym; to_Q; lra.
Qed.

Lemma Car_update_zero (car : Car) (accel : Qc) :
  0 <= speed car <= MAX_SPEED -> CarM.update car accel 0 = car.
Proof.
  intros [Lo Hi]. destruct car as [cx cs]. cbn [speed x] in *.
  unfold CarM.update. cbn [speed x].
  replace (cs + accel * 0) with cs by ring.
  assert (E1 : pymin cs MAX_SPEED = cs).
  { unfold pymin. apply ltb_false in Hi. rewrite Hi. reflexivity. }
  rewrite E1.
  assert (E2 : pymax 0 cs = cs).
  { unfold pymax. destruct (ltb 0 cs) eqn:E; [reflexivity|].
    apply ltb_false in E. apply Qcle_antisym; assumption. }
  rewrite E2. f_equal. ring.
Qed.

(** X10.  A frame of 0 ms freezes the motion: with both speeds in
    [[0, MAX_SPEED]] and the lead car at [WIDTH // 2], the iteration keeps
    the command, both cars and the road offset as they were (it still
    pushes a sample and still calls the PIDs). *)
Theorem zero_frame_freezes (profile : Qc) (w : World) (fr : Frame)
        (w' : World) (tk : Tick) :
  loop_body profile w fr = Ok (w', tk) ->
  ms fr = 0%N ->
  0 <= speed (lead_car w) <= MAX_SPEED ->
  0 <= speed (follower_car w) <= MAX_SPEED ->
  x (lead_car w) = of_int (WIDTH / 2) ->
  commanded_accel tk = last_accel w /\
  last_accel w' = last_accel w /\
  lead_car w' = lead_car w /\
  follower_car w' = follower_car w /\
  road_offset w' = road_offset w /\
  List.length (calls tk) <> O.
Proof.
  intros L Hms Hl Hf Hx.
  pose proof (frame_dt_zero fr Hms) as Dt.
  pose proof (loop_body_inv _ _ _ _ _ L)
    as (Hdt & _ & _ & _ & _ & _ & _ & Hcmd & Hlast & _).
  pose proof (loop_body_kinematics _ _ _ _ _ L) as K. cbn zeta in K.
  destruct K as (_ & _ & _ & Lc & Fc & Ro).
  rewrite Dt in *. rewrite Hdt in Hcmd. rewrite jerk_limit_zero in Hcmd.
  rewrite (Car_update_zero _ _ Hl) in Lc, Ro, Fc.
  rewrite (Car_update_zero _ _ Hf) in Fc.
  split; [exact Hcmd|]. split; [congruence|].
  split; [rewrite Lc, <- Hx; destruct (lead_car w); reflexivity|].
  split.
  { rewrite Fc. destruct (follower_car w) as [fx fs]. cbn [x speed].
    f_equal. ring. }
  split; [rewrite Ro; ring|].
  pose proof (loop_body_arbitration _ _ _ _ _ L) as A. cbn zeta in A.
  destruct (mode_of profile tk);
    [ destruct A as (_ & _ & _ & ->)
    | destruct A as (_ & _ & _ & ->)
    | destruct A as (t' & _ & _ & _ & _ & ->)
    | destruct A as (_ & _ & _ & ->) ];
    rewrite length_app; cbn; lia.
Qed.

Lemma zero_frame_freezes_witness :
  exists w' tk,
    loop_body configured w_tailgating (idle 0) = Ok (w', tk) /\
    follower_car w' = follower_car w_tailgating /\
    commanded_accel tk = 0.
Proof.
  destruct (loop_body_total configured w_tailgating (idle 0)) as (w' & tk & L).
  exists w', tk.
  assert (Hl : 0 <= of_int 200 <= MAX_SPEED)
    by (split; vm_compute; discriminate).
  destruct (zero_frame_freezes configured w_tailgating (idle 0) w' tk L
              eq_refl Hl Hl eq_refl) as (C & _ & _ & F & _).
  split; [exact L|]. split; [exact F | exact C].
Defined.

Lemma main_loop_feed (profile : Qc) (frames : list Frame) (w w' : World)
      (ticks : list Tick) :
  main_loop profile w frames = Ok (w', ticks) ->
  feed (reaction_buffer w) (map sample_of ticks) =
    Ok (reaction_buffer w', map perceived ticks).
Proof.
  revert w ticks. induction frames as [|fr rest IH]; intros w ticks H.
  - cbn in H. injection H as <- <-. reflexivity.
  - destruct (running w) eqn:R.
    + destruct (main_loop_cons _ _ _ _ _ _ H R) as (w1 & tk & tks & L & E & ->).
      pose proof (loop_body_inv _ _ _ _ _ L) as (_ & B & P & _).
      cbn [map feed]. rewrite perceive_ok. cbn [bind].
      fold (sample_of tk) in B, P. rewrite <- B, <- P.
      rewrite (IH _ _ E). reflexivity.
    + rewrite (main_loop_stopped _ _ _ R) in H. injection H as <- <-.
      reflexivity.
Qed.

(** X11.  The reaction buffer is bounded: after any run of the loop from
    the initial state it holds the samples of the last [capacity = 30]
    iterations, in order, and all of them when fewer were made. *)
Theorem reaction_buffer_bounded (profile : Qc) (frames : list Frame) :
  exists w ticks,
    main_loop profile (init_world profile) frames = Ok (w, ticks) /\
    reaction_buffer w =
      skipn (List.length ticks - capacity) (map sample_of ticks) /\
    List.length (reaction_buffer w) = Nat.min (List.length ticks) capacity.
Proof.
  destruct (main_loop_total profile frames (init_world profile))
    as (w & ticks & E & _).
  exists w, ticks. split; [exact E|].
  pose proof (main_loop_feed _ _ _ _ _ E) as F.
  destruct (feed_window (map sample_of ticks) []) as (seen & F' & _).
  change (reaction_buffer (init_world profile)) with (@nil Sample) in F.
  cbn [List.length app] in *.
  rewrite skipn_nil in F'. rewrite F' in F. injection F as B _.
  rewrite length_map in B.
  split; [symmetry; exact B|].
  rewrite <- B, length_skipn, length_map. lia.
Qed.

(** X12.  The controller acts on old data: in any run of the loop from
    the initial state, the sample an iteration perceives is the true
    distance and relative speed of the iteration [capacity - 1 = 29]
    iterations earlier, and of the first iteration during the first 30. *)
Theorem perception_is_delayed (profile : Qc) (frames : list Frame) :
  exists w ticks,
    main_loop profile (init_world profile) frames = Ok (w, ticks) /\
    forall k tk, nth_error ticks k = Some tk ->
      exists tk0,
        nth_error ticks (k - (capacity - 1)) = Some tk0 /\
        perceived tk = sample_of tk0.
Proof.
  destruct (main_loop_total profile frames (init_world profile))
    as (w & ticks & E & _).
  exists w, ticks. split; [exact E|].
  pose proof (main_loop_feed _ _ _ _ _ E) as F.
  destruct (feed_window (map sample_of ticks) []) as (seen & F' & _ & Nth).
  change (reaction_buffer (init_world profile)) with (@nil Sample) in F.
  cbn [List.length app] in *.
  rewrite skipn_nil in F'. rewrite F' in F. injection F as _ S. subst seen.
  intros k tk Hk.
  assert (Lt : (k < List.length ticks)%nat)
    by (apply nth_error_Some; congruence).
  assert (Lt0 : (k - (capacity - 1) < List.length ticks)%nat) by lia.
  destruct (nth_error ticks (k - (capacity - 1))) as [tk0|] eqn:H0;
    [|apply nth_error_None in H0; lia].
  exists tk0. split; [reflexivity|].
  specialize (Nth k (perceived tk)). rewrite length_map in Nth.
  specialize (Nth Lt). cbn [Nat.add] in Nth.
  rewrite (nth_error_nth _ _ _ (map_nth_error perceived _ _ Hk)) in Nth.
  rewrite (nth_error_nth _ _ _ (map_nth_error sample_of _ _ H0)) in Nth.
  exact Nth.
Qed.

(** ** More on the configuration *)

Lemma getitem_missing (d : list (string * Qc)) (key : string) :
  ~ In key (map fst d) -> getitem d key = Raise KeyError.
Proof.
  induction d as [|[k v] rest IH]; intros H; [reflexivity|].
  cbn [getitem]. destruct (String.eqb k key) eqn:E.
  - apply String.eqb_eq in E. exfalso. apply H. left. exact E.
  - apply IH. intros I. apply H. right. exact I.
Qed.

Lemma getitem_found (d : list (string * Qc)) (key : string) (v : Qc) :
  NoDup (map fst d) -> In (key, v) d -> getitem d key = Ok v.
Proof.
  induction d as [|[k u] rest IH]; intros N I; [contradiction|].
  cbn [map fst] in N. inversion N as [|? ? Nk Nr]; subst.
  cbn [getitem]. destruct I as [I|I].
  - injection I as -> ->. rewrite String.eqb_refl. reflexivity.
  - destruct (String.eqb k key) eqn:E.
    + apply String.eqb_eq in E. subst k. exfalso. apply Nk.
      change key with (fst (key, v)). apply in_map. exact I.
    + apply IH; assumption.
Qed.

Lemma PROFILES_keys_distinct : NoDup (map fst PROFILES).
Proof.
  cbn [map fst PROFILES].
  repeat (constructor;
          [ cbn [In]; intros H;
            repeat (destruct H as [H|H]; [discriminate|]); exact H |]).
  constructor.
Qed.

(** X13.  Looking a profile up: every name of [PROFILES] gives the
    scalar listed beside it, which lies in [[0, 1]]; any other name
    raises [KeyError]. *)
Theorem profile_lookup :
  (forall name p, In (name, p) PROFILES ->
     getitem PROFILES name = Ok p /\ 0 <= p <= 1) /\
  (forall name, ~ In name (map fst PROFILES) ->
     getitem PROFILES name = Raise KeyError).
Proof.
  split.
  - intros name p I. split.
    + apply getitem_found; [apply PROFILES_keys_distinct | exact I].
    + cbn [PROFILES In] in I.
      repeat (destruct I as [I|I];
              [injection I as <- <-; split; vm_compute; discriminate|]).
      contradiction.
  - intros name. apply getitem_missing.
Qed.

(** X14.  For every aggressiveness scalar in [[0, 1]] the thresholds are
    sound: [0 < MIN_TTC < DESIRED_TTC], the time headway is positive, and
    the target distance exceeds the standstill distance by more than the
    deadband. *)
Theorem thresholds_ordered (profile : Qc) :
  0 <= profile <= 1 ->
  0 < MIN_TTC profile /\
  MIN_TTC profile < DESIRED_TTC profile /\
  0 < TIME_HEADWAY profile /\
  STANDSTILL_DISTANCE + DEADBAND < TARGET_DISTANCE profile.
Proof.
  intros [Lo Hi].
  unfold MIN_TTC, DESIRED_TTC, TIME_HEADWAY, TARGET_DISTANCE,
    STANDSTILL_DISTANCE, DEADBAND.
  to_Q. unfold inject_Z in *. repeat split; lra.
Qed.

Lemma thresholds_ordered_witness :
  0 < MIN_TTC configured /\ MIN_TTC configured < DESIRED_TTC configured.
Proof.
  assert (H : 0 <= configured <= 1) by (split; vm_compute; discriminate).
  destruct (thresholds_ordered configured H) as (A & B & _).
  split; [exact A | exact B].
Defined.

(** ** The road markings *)

Lemma of_int_succ (z : Z) : of_int (z + 1) = of_int z + 1.
Proof.
  apply Qc_is_canon. to_Q. rewrite inject_Z_plus. reflexivity.
Qed.

Lemma pymod_pattern (a : Qc) :
  exists q : Z,
    pymod a (of_int 70) = Ok (a - of_int 70 * of_int q) /\
    0 <= a - of_int 70 * of_int q /\
    a - of_int 70 * of_int q < of_int 70.
Proof.
  exists (Qfloor (a / of_int 70)).
  split; [reflexivity|].
  pose proof (Qfloor_le (a / of_int 70)) as Lo.
  pose proof (Qlt_floor (a / of_int 70)) as Hi.
  set (z := Qfloor (a / of_int 70)) in *. clearbody z.
  rewrite inject_Z_plus in Hi.
  unfold Qcdiv in Lo, Hi. to_Q.
  set (zq := inject_Z z) in *. clearbody zq.
  change (inject_Z 70) with (70 # 1)%Q in *.
  change (inject_Z 1) with 1%Q in *.
  unfold Qdiv in *.
  assert (E : ((this a * / (70 # 1)) * (70 # 1) == this a)%Q) by field.
  set (t := (this a * / (70 # 1))%Q) in *. clearbody t.
  split; lra.
Qed.

Lemma dash_loop_draw (fuel : nat) (pattern x : Qc) :
  x < of_int WIDTH ->
  dash_loop (S fuel) pattern x =
  match dash_loop fuel pattern (x + pattern) with
  | Some xs => Some (x :: xs)
  | None => None
  end.
Proof.
  intros H. cbn [dash_loop]. apply ltb_true in H. rewrite H. reflexivity.
Qed.

Lemma dash_loop_stop (fuel : nat) (pattern x : Qc) :
  of_int WIDTH <= x -> dash_loop (S fuel) pattern x = Some [].
Proof.
  intros H. cbn [dash_loop]. apply ltb_false in H. rewrite H. reflexivity.
Qed.

Lemma dash_loop_count (n : nat) :
  forall (x : Qc) (fuel : nat),
    (n < fuel)%nat ->
    of_int WIDTH <= x + of_int 70 * of_int (Z.of_nat n) ->
    x + of_int 70 * of_int (Z.of_nat n) < of_int WIDTH + of_int 70 ->
    dash_loop fuel (of_int 70) x = Some (spaced x (of_int 70) n).
Proof.
  induction n as [|m IH]; intros x fuel Hf Lo Hi;
    (destruct fuel as [|fuel]; [lia|]).
  - rewrite dash_loop_stop; [reflexivity|].
    change (of_int (Z.of_nat 0)) with 0 in Lo.
    rewrite Qcmult_0_r, Qcplus_0_r in Lo. exact Lo.
  - rewrite Nat2Z.inj_succ in Lo, Hi. unfold Z.succ in Lo, Hi.
    rewrite of_int_succ in Lo, Hi.
    assert (Pos : 0 <= of_int (Z.of_nat m)) by (apply of_int_nonneg; lia).
    set (k := of_int (Z.of_nat m)) in *. clearbody k.
    rewrite dash_loop_draw.
    + rewrite (IH (x + of_int 70) fuel); [reflexivity | lia | | ].
      * unfold WIDTH in *. to_Q. unfold inject_Z in *. lra.
      * unfold WIDTH in *. to_Q. unfold inject_Z in *. lra.
    + unfold WIDTH in *. to_Q. unfold inject_Z in *. lra.
Qed.

Lemma dash_loop_from_left (x0 : Qc) :
  - of_int 70 <= x0 -> x0 < 0 ->
  exists n,
    (n = 15 \/ n = 16)%nat /\
    forall fuel, (17 <= fuel)%nat ->
      dash_loop fuel (of_int 70) x0 = Some (spaced x0 (of_int 70) n).
Proof.
  intros Lo Hi.
  destruct (ltb (x0 + of_int 70 * of_int 15) (of_int WIDTH)) eqn:E.
  - apply ltb_true in E. exists 16%nat. split; [right; reflexivity|].
    intros fuel Hf.
    apply dash_loop_count; [lia | | ];
      change (of_int (Z.of_nat 16)) with (of_int 16);
      unfold WIDTH in *; to_Q; unfold inject_Z in *; lra.
  - apply ltb_false in E. exists 15%nat. split; [left; reflexivity|].
    intros fuel Hf.
    apply dash_loop_count; [lia | | ];
      change (of_int (Z.of_nat 15)) with (of_int 15);
      unfold WIDTH in *; to_Q; unfold inject_Z in *; lra.
Qed.

(** X15.  The road-marking loop ends for every road offset: it draws 15
    or 16 pairs of dashes, 70 apart; the first starts in [[-70, 0)], so
    the marking reaches the left edge, and it is the road offset shifted
    by a whole number of patterns, so the marking scrolls with the road. *)
Theorem road_dashes_terminate (road_offset : Qc) :
  exists (q : Z) (n : nat),
    - of_int 70 <= road_offset - of_int 70 * of_int q /\
    road_offset - of_int 70 * of_int q < 0 /\
    (n = 15 \/ n = 16)%nat /\
    forall fuel, (17 <= fuel)%nat ->
      road_dashes fuel road_offset =
        Ok (Some (spaced (road_offset - of_int 70 * of_int q) (of_int 70) n)).
Proof.
  destruct (pymod_pattern road_offset) as (q & Hm & Lo & Hi).
  assert (S : road_offset - of_int 70 * of_int q - of_int 70 =
              road_offset - of_int 70 * of_int (q + 1))
    by (rewrite of_int_succ; ring).
  assert (Lo' : - of_int 70 <= road_offset - of_int 70 * of_int (q + 1)).
  { rewrite <- S. set (r := road_offset - of_int 70 * of_int q) in *.
    clearbody r. to_Q. lra. }
  assert (Hi' : road_offset - of_int 70 * of_int (q + 1) < 0).
  { rewrite <- S. set (r := road_offset - of_int 70 * of_int q) in *.
    clearbody r. to_Q. lra. }
  destruct (dash_loop_from_left _ Lo' Hi') as (n & Hn & D).
  exists (q + 1)%Z, n.
  split; [exact Lo'|]. split; [exact Hi'|]. split; [exact Hn|].
  intros fuel Hf.
  unfold road_dashes.
  change (of_int (DASH_LENGTH + GAP_LENGTH)) with (of_int 70).
  rewrite Hm. cbn [bind ret]. rewrite S, (D fuel Hf). reflexivity.
Qed.

(** ** Rest *)

Lemma Car_update_at_rest (x0 accel dt : Qc) :
  accel <= 0 -> 0 <= dt -> CarM.update (mkCar x0 0) accel dt = mkCar x0 0.
Proof.
  intros Ha Hdt. unfold CarM.update. cbn [speed x].
  assert (S1 : 0 + accel * dt <= 0).
  { pose proof (Qcmult_le_compat_r accel 0 dt Ha Hdt) as H.
    rewrite Qcmult_0_l in H. rewrite Qcplus_0_l. exact H. }
  set (s1 := 0 + accel * dt) in *. clearbody s1.
  assert (E1 : pymin s1 MAX_SPEED = s1).
  { unfold pymin. replace (ltb MAX_SPEED s1) with false; [reflexivity|].
    symmetry. apply ltb_false.
    apply (Qcle_trans _ 0); [exact S1 | apply MAX_SPEED_nonneg]. }
  rewrite E1.
  assert (E2 : pymax 0 s1 = 0).
  { unfold pymax. replace (ltb 0 s1) with false; [reflexivity|].
    symmetry. apply ltb_false. exact S1. }
  rewrite E2. f_equal. ring.
Qed.

Lemma pushed_all_equal (s : Sample) (buf : Deque.t) :
  Forall (eq s) buf ->
  Forall (eq s) (pushed buf s) /\ hd s (pushed buf s) = s.
Proof.
  intros F.
  assert (A : Forall (eq s) (buf ++ [s]))
    by (apply Forall_app; split; [exact F | repeat constructor]).
  unfold pushed.
  destruct (max_len <? Deque.len (buf ++ [s]))%Z.
  - destruct (buf ++ [s]) as [|a l]; cbn [tl].
    + split; [constructor | reflexivity].
    + inversion A as [|? ? _ Hl]; subst.
      split; [exact Hl|]. destruct Hl as [|b l' Hb _]; cbn; congruence.
  - split; [exact A|]. destruct A; cbn; congruence.
Qed.

Lemma at_rest_step (profile : Qc) (w : World) (fr : Frame)
      (w' : World) (tk : Tick) :
  STANDSTILL_DISTANCE <= TARGET_DISTANCE profile ->
  at_rest profile w ->
  K_w fr = false ->
  loop_body profile w fr = Ok (w', tk) ->
  at_rest profile w' /\ commanded_accel tk = 0 /\ proposed_accel tk = 0.
Proof.
  intros Htd (Hl & Hf & Hla & Hb) Hw L.
  pose proof (frame_dt_nonneg fr) as Dt.
  pose proof (loop_body_inv _ _ _ _ _ L)
    as (Hdt & B & P & Mfd & T & E & _ & Hcmd & Hlast & _).
  pose proof (loop_body_kinematics _ _ _ _ _ L) as K. cbn zeta in K.
  destruct K as (Td & Tr & _ & Lc & Fc & _).
  assert (Ua : user_accel fr <= 0).
  { unfold user_accel. rewrite Hw.
    destruct (K_s fr); vm_compute; discriminate. }
  rewrite Hl, (Car_update_at_rest _ _ _ Ua Dt) in Td, Tr, Lc, Fc.
  rewrite Hf in Td, Tr, Mfd, Fc. cbn [x speed] in Td, Tr, Mfd, Lc, Fc.
  assert (Td' : true_distance tk = TARGET_DISTANCE profile)
    by (rewrite Td; ring).
  assert (Tr' : true_rel_speed tk = 0) by (rewrite Tr; ring).
  assert (Mfd' : min_follow_distance tk = STANDSTILL_DISTANCE)
    by (rewrite Mfd; ring).
  rewrite Td', Tr' in B, P.
  destruct (pushed_all_equal _ _ Hb) as [Hb' Hd].
  rewrite <- B in Hb', Hd. rewrite Hd in P.
  rewrite P in T, E. cbn [distance rel_speed] in T, E.
  rewrite time_to_contact_ok in T.
  replace (ltb 0 0) with false in T by reflexivity. injection T as T.
  assert (Far : ltb (TARGET_DISTANCE profile) STANDSTILL_DISTANCE = false)
    by (apply ltb_false; exact Htd).
  assert (E' : distance_error tk = 0).
  { rewrite E, Mfd'. unfold pymax. rewrite Far. ring. }
  pose proof (loop_body_arbitration _ _ _ _ _ L) as A. cbn zeta in A.
  unfold mode_of, select_mode, in_deadband in A.
  rewrite P, Mfd', <- T, E' in A. cbn [distance] in A. rewrite Far in A.
  replace (ltb (Qcabs 0) DEADBAND) with true in A by reflexivity.
  destruct A as (_ & _ & Pr & _).
  assert (Pr' : proposed_accel tk = 0).
  { rewrite Pr. unfold output, deadband_reset.
    cbn [PID.reset kp ki kd integral prev_error].
    replace (kp (pid_accel w) * 0 + ki (pid_accel w) * (0 + 0 * tick_dt tk)
             + kd (pid_accel w)
               * (if ltb 0 (tick_dt tk) then (0 - 0) / tick_dt tk else 0))
      with 0
      by (destruct (ltb 0 (tick_dt tk)); unfold Qcdiv; ring).
    reflexivity. }
  assert (C : commanded_accel tk = 0).
  { rewrite Hcmd, Hla, Pr', Hdt.
    apply (proj1 (jerk_limit_cases 0 0 (frame_dt fr) Dt)).
    replace (0 - 0) with 0 by ring.
    rewrite (Qcabs_pos 0 (Qcle_refl 0)).
    apply Qcmult_nonneg; [apply MAX_JERK_nonneg | exact Dt]. }
  rewrite C in Fc.
  rewrite (Car_update_at_rest _ _ _ (Qcle_refl 0) Dt) in Fc.
  cbn [x speed] in Fc.
  split; [|split; [exact C | exact Pr']].
  unfold at_rest. split; [exact Lc|]. split.
  { rewrite Fc. f_equal. ring. }
  split; [congruence | exact Hb'].
Qed.

(** X16.  Rest is an equilibrium: when the target distance is at least
    the standstill distance, as long as W is never held the loop started
    from the initial state proposes and commands acceleration 0 in every
    iteration and leaves both cars where they were, whatever the frame
    times and whether or not S is held. *)
Theorem rest_is_an_equilibrium (profile : Qc) (frames : list Frame) :
  STANDSTILL_DISTANCE <= TARGET_DISTANCE profile ->
  Forall (fun fr => K_w fr = false) frames ->
  exists w ticks,
    main_loop profile (init_world profile) frames = Ok (w, ticks) /\
    Forall (fun tk => proposed_accel tk = 0 /\ commanded_accel tk = 0) ticks /\
    lead_car w = lead_car (init_world profile) /\
    follower_car w = follower_car (init_world profile).
Proof.
  intros Htd Hw.
  assert (G : forall fs w0, Forall (fun fr => K_w fr = false) fs ->
            at_rest profile w0 ->
            exists w ticks,
              main_loop profile w0 fs = Ok (w, ticks) /\
              Forall (fun tk => proposed_accel tk = 0 /\ commanded_accel tk = 0)
                     ticks /\
              at_rest profile w).
  { induction fs as [|fr rest IH]; intros w0 Hfs R.
    - exists w0, []. split; [reflexivity|]. split; [constructor | exact R].
    - inversion Hfs as [|? ? Hfr Hrest]; subst.
      cbn [main_loop]. destruct (running w0).
      + destruct (loop_body_total profile w0 fr) as (w1 & tk & L).
        rewrite L. cbn [bind].
        destruct (at_rest_step _ _ _ _ _ Htd R Hfr L) as (R1 & C & Pr).
        destruct (IH w1 Hrest R1) as (w2 & tks & E & F & R2).
        rewrite E. cbn [bind ret]. exists w2, (tk :: tks).
        split; [reflexivity|]. split; [|exact R2].
        constructor; [split; assumption | exact F].
      + exists w0, []. split; [reflexivity|].
        split; [constructor | exact R]. }
  assert (R0 : at_rest profile (init_world profile)).
  { unfold at_rest. cbn. repeat split. constructor. }
  destruct (G frames (init_world profile) Hw R0) as (w & ticks & E & F & (Rl & Rf & _)).
  exists w, ticks. split; [exact E|]. split; [exact F|].
  split; [exact Rl | exact Rf].
Qed.

Lemma rest_is_an_equilibrium_witness :
  exists w ticks,
    main_loop configured (init_world configured)
              [idle 17; hold_s 33; idle 0]%list = Ok (w, ticks) /\
    follower_car w = follower_car (init_world configured).
Proof.
  assert (Htd : STANDSTILL_DISTANCE <= TARGET_DISTANCE configured)
    by (vm_compute; discriminate).
  assert (Hw : Forall (fun fr => K_w fr = false)
                 [idle 17; hold_s 33; idle 0]%list)
    by (repeat constructor).
  destruct (rest_is_an_equilibrium configured _ Htd Hw)
    as (w & ticks & E & _ & _ & F).
  exists w, ticks. split; [exact E | exact F].
Defined.

(** ** Edges of the loop *)

(** X17.  The read that follows the push never fails, not even on the
    empty deque, where it returns the sample just pushed; a push adds one
    sample to a deque shorter than [capacity] and keeps the length of any
    other. *)
Theorem read_after_push_is_safe (buf : Deque.t) (s : Sample) :
  exists buf' seen,
    perceive buf s = Ok (buf', seen) /\
    In seen (buf ++ [s]) /\
    List.length buf' =
      (if (capacity <=? List.length buf)%nat
       then List.length buf else S (List.length buf)) /\
    (buf = [] -> buf' = [s]%list /\ seen = s).
Proof.
  rewrite perceive_ok. eexists. eexists. split; [reflexivity|].
  unfold pushed, Deque.len. rewrite max_len_value, capacity_value.
  rewrite length_app. cbn [List.length].
  destruct (30 <? _)%Z eqn:E.
  - apply Z.ltb_lt in E.
    replace (30 <=? List.length buf)%nat with true
      by (symmetry; apply Nat.leb_le; lia).
    destruct buf as [|a [|b l]]; cbn in E; try lia.
    cbn. split; [right; left; reflexivity|].
    split; [rewrite length_app; cbn; lia | discriminate].
  - apply Z.ltb_ge in E.
    replace (30 <=? List.length buf)%nat with false
      by (symmetry; apply Nat.leb_gt; lia).
    split.
    + destruct buf; cbn; left; reflexivity.
    + split; [rewrite length_app; cbn; lia|].
      intros ->. split; reflexivity.
Qed.

(** X18.  Full braking is approached as fast as the limiter permits and
    never overshot: in an iteration that takes the too-close or the
    [ttc < MIN_TTC] branch with the last command at or above [MAX_BRAKE],
    the command is [max(last - MAX_JERK*dt, MAX_BRAKE)], between
    [MAX_BRAKE] and the last command. *)
Theorem full_braking_ramp (profile : Qc) (w : World) (fr : Frame)
        (w' : World) (tk : Tick) :
  loop_body profile w fr = Ok (w', tk) ->
  mode_of profile tk = TooClose \/ mode_of profile tk = MinTTC ->
  MAX_BRAKE <= last_accel w ->
  commanded_accel tk = pymax (last_accel w - MAX_JERK * tick_dt tk) MAX_BRAKE /\
  MAX_BRAKE <= commanded_accel tk <= last_accel w.
Proof.
  intros L Mo Hl.
  pose proof (frame_dt_nonneg fr) as Dt.
  pose proof (loop_body_inv _ _ _ _ _ L)
    as (Hdt & _ & _ & _ & _ & _ & _ & Hcmd & _).
  rewrite <- Hdt in Dt.
  pose proof (loop_body_arbitration _ _ _ _ _ L) as A. cbn zeta in A.
  assert (Pr : proposed_accel tk = MAX_BRAKE)
    by (destruct Mo as [Mo|Mo]; rewrite Mo in A; apply A).
  assert (Hmd : 0 <= MAX_JERK * tick_dt tk)
    by (apply Qcmult_nonneg; [apply MAX_JERK_nonneg | exact Dt]).
  rewrite Hcmd, Pr. unfold jerk_limit.
  set (md := MAX_JERK * tick_dt tk) in *. clearbody md.
  set (last := last_accel w) in *. clearbody last.
  assert (E : pymin (last + md) MAX_BRAKE = MAX_BRAKE).
  { unfold pymin. destruct (ltb MAX_BRAKE (last + md)) eqn:C; [reflexivity|].
    apply ltb_false in C. apply Qcle_antisym; [exact C | to_Q; lra]. }
  rewrite E. split; [reflexivity|]. split.
  - apply pymax_ge_r.
  - apply pymax_lub; [to_Q; lra | exact Hl].
Qed.

Lemma full_braking_ramp_witness :
  exists w' tk,
    loop_body configured w_tailgating (idle 17) = Ok (w', tk) /\
    commanded_accel tk = - of_int 17.
Proof.
  destruct (loop_body_total configured w_tailgating (idle 17)) as (w' & tk & L).
  exists w', tk.
  assert (Obs : mode_of configured tk = TooClose /\ tick_dt tk = fl 0.017).
  { pose proof L as L2. vm_compute in L2. injection L2 as <- <-.
    split; [|apply Qc_is_canon]; vm_compute; reflexivity. }
  destruct Obs as [Mo Ht].
  assert (Hl : MAX_BRAKE <= last_accel w_tailgating)
    by (vm_compute; discriminate).
  destruct (full_braking_ramp configured w_tailgating (idle 17) w' tk L
              (or_introl Mo) Hl) as (C & _).
  split; [exact L|]. rewrite C, Ht.
  apply Qc_is_canon. vm_compute. reflexivity.
Defined.

(** X19.  A [QUIT] event ends the loop after the iteration that sees it:
    that iteration is made in full, and the frames after it are never
    read. *)
Theorem quit_ends_after_the_frame (profile : Qc) (pre : list Frame)
        (q : Frame) (rest : list Frame) (w : World) :
  quit q = true ->
  main_loop profile w (pre ++ q :: rest) = main_loop profile w (pre ++ [q]) /\
  exists w' ticks,
    main_loop profile w (pre ++ q :: rest) = Ok (w', ticks) /\
    running w' = false /\
    (List.length ticks <= S (List.length pre))%nat.
Proof.
  intros Hq. revert w. induction pre as [|fr pre IH]; intros w.
  - cbn [app main_loop]. destruct (running w) eqn:R.
    + destruct (loop_body_total profile w q) as (w1 & tk & L).
      rewrite L. cbn [bind].
      pose proof (loop_body_inv _ _ _ _ _ L)
        as (_ & _ & _ & _ & _ & _ & _ & _ & _ & _ & _ & Run).
      rewrite Hq in Run.
      rewrite (main_loop_stopped _ _ rest Run). cbn [bind ret].
      split; [reflexivity|].
      exists w1, [tk]%list. split; [reflexivity|]. split; [exact Run|].
      cbn. lia.
    + split; [reflexivity|].
      exists w, []. split; [reflexivity|]. split; [exact R | cbn; lia].
  - cbn [app main_loop]. destruct (running w) eqn:R.
    + destruct (loop_body_total profile w fr) as (w1 & tk & L).
      rewrite L. cbn [bind].
      destruct (IH w1) as (Eq & w2 & tks & E & Run & Len).
      rewrite <- Eq, E. cbn [bind ret].
      split; [reflexivity|].
      exists w2, (tk :: tks). split; [reflexivity|]. split; [exact Run|].
      cbn. lia.
    + split; [reflexivity|].
      exists w, []. split; [reflexivity|]. split; [exact R | cbn; lia].
Qed.

Lemma quit_ends_after_the_frame_witness :
  main_loop configured (init_world configured)
            ([idle 17] ++ mkFrame 17 true true false :: [hold_w 17; hold_w 17])%list
  = main_loop configured (init_world configured)
              ([idle 17] ++ [mkFrame 17 true true false])%list.
Proof.
  exact (proj1 (quit_ends_after_the_frame configured [idle 17]%list
                  (mkFrame 17 true true false) [hold_w 17; hold_w 17]%list
                  (init_world configured) eq_refl)).
Defined.

Lemma main_loop_lead (profile : Qc) (frames : list Frame) (w w' : World)
      (ticks : list Tick) :
  main_loop profile w frames = Ok (w', ticks) ->
  x (lead_car w) = of_int (WIDTH / 2) /\
  0 <= speed (lead_car w) <= MAX_SPEED /\ road_offset w <= 0 ->
  x (lead_car w') = of_int (WIDTH / 2) /\
  0 <= speed (lead_car w') <= MAX_SPEED /\ road_offset w' <= 0.
Proof.
  revert w ticks. induction frames as [|fr rest IH]; intros w ticks H Inv.
  - cbn in H. injection H as <- <-. exact Inv.
  - destruct (running w) eqn:R.
    + destruct (main_loop_cons _ _ _ _ _ _ H R) as (w1 & tk & tks & L & E & ->).
      apply (IH _ _ E).
      pose proof (loop_body_kinematics _ _ _ _ _ L) as K. cbn zeta in K.
      destruct K as (_ & _ & _ & Lc & _ & Ro).
      destruct Inv as (_ & _ & Hro).
      pose proof (Car_update_speed (lead_car w) (user_accel fr) (frame_dt fr))
        as Sp.
      rewrite Lc, Ro. cbn [x speed].
      split; [reflexivity|]. split; [exact Sp|].
      assert (P : 0 <= speed (CarM.update (lead_car w) (user_accel fr)
                                (frame_dt fr)) * frame_dt fr)
        by (apply Qcmult_nonneg; [apply Sp | apply frame_dt_nonneg]).
      set (a := speed _ * frame_dt fr) in *. clearbody a.
      to_Q. lra.
    + rewrite (main_loop_stopped _ _ _ R) in H. injection H as <- <-. exact Inv.
Qed.

(** X20.  The lead car stays in place on the screen and the road scrolls
    one way: after any run of the loop from the initial state the lead car
    is at [WIDTH // 2] with a speed in [[0, MAX_SPEED]], and the road
    offset is not positive. *)
Theorem lead_car_stays_on_screen (profile : Qc) (frames : list Frame) :
  exists w ticks,
    main_loop profile (init_world profile) frames = Ok (w, ticks) /\
    x (lead_car w) = of_int (WIDTH / 2) /\
    0 <= speed (lead_car w) <= MAX_SPEED /\
    road_offset w <= 0.
Proof.
  destruct (main_loop_total profile frames (init_world profile))
    as (w & ticks & E & _).
  exists w, ticks. split; [exact E|].
  apply (main_loop_lead _ _ _ _ _ E). cbn.
  split; [reflexivity|]. split; [|apply Qcle_refl].
  split; [apply Qcle_refl | apply MAX_SPEED_nonneg].
Qed.
